(** * SyncEngine intention search: ranking engine, write pipeline and join
    orchestrator

    A shallow embedding of

    - [intention-search-engine.js] (cosine similarity, haversine distance,
      geo score, card sizing, [searchIntentions]),
    - [database.js] in its cached variant (IndexedDB cache, [loadIntentions],
      [createIntention], [updateIntention], [openIntentionsDatabase]),
    - the [handleSubmit] validation of [CreateIntentionForm.svelte],

    followed by the properties the design document states about them.

    Numbers.  JavaScript numbers are IEEE-754 doubles.  They are idealised
    here as exact rationals extended by the three special values the source
    can observe ([Infinity], [-Infinity], [NaN]); decimal literals such as
    [0.7] denote the rational [7/10], there is no rounding error and no
    signed zero.  The transcendental functions of [Math] are not defined in
    the source; they are taken as an interface ([MathLib]).

    Asynchrony.  Every awaited external operation (store read, store write,
    dial, open) is described by how it settles: after how many milliseconds
    and with which value or error, or never.  [Promise.race] against a
    [setTimeout] deadline is resolved from these data.  The browser state
    the code touches (IndexedDB cache, [localStorage], the address bar, the
    clock) is threaded explicitly. *)

From Stdlib Require Import ZArith QArith Qround Qminmax Lqa Lia.
From Stdlib Require Import List String Ascii Bool Permutation Sorted.
From Stdlib Require Import DecimalString.
Import ListNotations.

Local Open Scope Q_scope.

(* ===================================================================== *)
(** * JavaScript numbers, idealised                                       *)
(* ===================================================================== *)

Inductive number : Type :=
| Fin (q : Q)
| PosInf
| NegInf
| NaN.

(** Sign of a number; [Eq] for zero and, by convention, for [NaN]. *)
Definition nsign (x : number) : comparison :=
  match x with
  | Fin q => q ?= 0
  | PosInf => Gt
  | NegInf => Lt
  | NaN => Eq
  end.

Definition sign_mul (a b : comparison) : comparison :=
  match a, b with
  | Eq, _ | _, Eq => Eq
  | Gt, Gt | Lt, Lt => Gt
  | _, _ => Lt
  end.

(** The infinity of a given sign; a zero sign stands for an undefined
    result ([0 * Infinity], [0 / 0]). *)
Definition inf_of_sign (c : comparison) : number :=
  match c with
  | Gt => PosInf
  | Lt => NegInf
  | Eq => NaN
  end.

Definition nneg (x : number) : number :=
  match x with
  | Fin q => Fin (- q)
  | PosInf => NegInf
  | NegInf => PosInf
  | NaN => NaN
  end.

(** [x + y] *)
Definition nadd (x y : number) : number :=
  match x, y with
  | NaN, _ | _, NaN => NaN
  | Fin a, Fin b => Fin (a + b)
  | PosInf, NegInf | NegInf, PosInf => NaN
  | PosInf, _ | _, PosInf => PosInf
  | NegInf, _ | _, NegInf => NegInf
  end.

(** [x - y] *)
Definition nsub (x y : number) : number := nadd x (nneg y).

(** [x * y] *)
Definition nmul (x y : number) : number :=
  match x, y with
  | NaN, _ | _, NaN => NaN
  | Fin a, Fin b => Fin (a * b)
  | _, _ => inf_of_sign (sign_mul (nsign x) (nsign y))
  end.

(** [x / y]; a zero divisor counts as [+0]. *)
Definition ndiv (x y : number) : number :=
  match x, y with
  | NaN, _ | _, NaN => NaN
  | Fin a, Fin b =>
      if Qeq_bool b 0 then inf_of_sign (a ?= 0) else Fin (a / b)
  | Fin _, _ => Fin 0
  | _, Fin b =>
      inf_of_sign (sign_mul (nsign x) (if Qle_bool 0 b then Gt else Lt))
  | _, _ => NaN
  end.

(** [x >= y]; false as soon as one side is [NaN]. *)
Definition nge (x y : number) : bool :=
  match x, y with
  | NaN, _ | _, NaN => false
  | Fin a, Fin b => Qle_bool b a
  | PosInf, _ => true
  | _, NegInf => true
  | _, _ => false
  end.

(** [x === y] on numbers. *)
Definition nstrict_eq (x y : number) : bool :=
  match x, y with
  | Fin a, Fin b => Qeq_bool a b
  | PosInf, PosInf | NegInf, NegInf => true
  | _, _ => false
  end.

(** [Math.max(x, y)] *)
Definition Math_max (x y : number) : number :=
  match x, y with
  | NaN, _ | _, NaN => NaN
  | PosInf, _ | _, PosInf => PosInf
  | NegInf, z | z, NegInf => z
  | Fin a, Fin b => Fin (if Qle_bool a b then b else a)
  end.

(** [Math.round(x)]: the nearest integer, ties towards [+Infinity]. *)
Definition Math_round (x : number) : number :=
  match x with
  | Fin q => Fin (inject_Z (Qfloor (q + (1 # 2))))
  | _ => x
  end.

(** The functions of [Math] the source calls without defining them. *)
Class MathLib : Type := {
  Math_PI : Q;
  sqrt_fin : Q -> Q;      (* Math.sqrt on a non-negative finite argument *)
  sin_fin : Q -> Q;       (* Math.sin on a finite argument *)
  cos_fin : Q -> Q;       (* Math.cos on a finite argument *)
  atan2_fin : Q -> Q -> Q (* Math.atan2 on finite arguments *)
}.

(** The one law of [Math.sqrt] the ranking properties rest on: it maps
    zero to zero. *)
Class MathLibSpec (M : MathLib) : Prop := {
  sqrt_fin_zero : forall q, q == 0 -> sqrt_fin q == 0
}.

Section MathLifted.
Context {M : MathLib}.

(** [Math.sqrt(x)] *)
Definition Math_sqrt (x : number) : number :=
  match x with
  | Fin q => if Qle_bool 0 q then Fin (sqrt_fin q) else NaN
  | PosInf => PosInf
  | _ => NaN
  end.

(** [Math.atan2(y, x)].  Its arguments in [geoDistance] are square roots
    of finite numbers, hence finite or [NaN]; infinite arguments do not
    arise and are mapped to [NaN] as well. *)
Definition Math_atan2 (y x : number) : number :=
  match y, x with
  | Fin a, Fin b => Fin (atan2_fin a b)
  | _, _ => NaN
  end.
End MathLifted.

(* ===================================================================== *)
(** * Results of fallible code                                            *)
(* ===================================================================== *)

Inductive Result (A : Type) : Type :=
| Ok (a : A)
| Throw (message : string).
Arguments Ok {A} a.
Arguments Throw {A} message.

(** [xs.map(f)] where [f] may throw: the first exception aborts the map. *)
Fixpoint map_result {A B} (f : A -> Result B) (xs : list A) : Result (list B) :=
  match xs with
  | [] => Ok []
  | x :: rest =>
      match f x with
      | Throw m => Throw m
      | Ok y =>
          match map_result f rest with
          | Throw m => Throw m
          | Ok ys => Ok (y :: ys)
          end
      end
  end.

(* ===================================================================== *)
(** * [Array.prototype.sort] with a comparator                            *)
(* ===================================================================== *)

Section JsSort.
Context {A : Type} (cmp : A -> A -> number).

(** The comparator result is read by its sign; [NaN] counts as zero. *)
Definition sorts_after (a b : A) : bool :=
  match nsign (cmp a b) with Gt => true | _ => false end.

Fixpoint sort_insert (x : A) (sorted : list A) : list A :=
  match sorted with
  | [] => [x]
  | y :: rest =>
      if sorts_after x y then y :: sort_insert x rest else x :: y :: rest
  end.

(** A stable sort, as the language requires: an element is moved behind
    exactly those later elements the comparator puts strictly before it. *)
Definition js_sort (xs : list A) : list A :=
  fold_right sort_insert [] xs.
End JsSort.

(* ===================================================================== *)
(** * Strings as the source uses them                                     *)
(* ===================================================================== *)

Local Open Scope string_scope.

(** ASCII white space; [String.prototype.trim] also strips the Unicode
    space characters, which the byte strings used here do not contain. *)
Definition is_space (c : ascii) : bool :=
  match N_of_ascii c with
  | 9%N | 10%N | 11%N | 12%N | 13%N | 32%N => true
  | _ => false
  end.

Fixpoint trimStart (s : string) : string :=
  match s with
  | EmptyString => EmptyString
  | String c rest => if is_space c then trimStart rest else s
  end.

Fixpoint trimEnd (s : string) : string :=
  match s with
  | EmptyString => EmptyString
  | String c rest =>
      match trimEnd rest with
      | EmptyString => if is_space c then EmptyString else String c EmptyString
      | kept => String c kept
      end
  end.

(** [s.trim()] *)
Definition trim (s : string) : string := trimEnd (trimStart s).

(** Truthiness of a string: the empty string is falsy. *)
Definition truthy (s : string) : bool :=
  match s with EmptyString => false | _ => true end.

(** Truthiness of a possibly missing string property. *)
Definition truthy_opt (s : option string) : bool :=
  match s with Some t => truthy t | None => false end.

(** [s.split(',')]: never empty, the empty string splits into one empty
    piece. *)
Fixpoint split_comma (s : string) : list string :=
  match s with
  | EmptyString => [EmptyString]
  | String c rest =>
      match split_comma rest with
      | [] => [String c EmptyString]
      | piece :: pieces =>
          if Ascii.eqb c "," then EmptyString :: piece :: pieces
          else String c piece :: pieces
      end
  end.

(** Decimal rendering of an integer inside a template literal. *)
Definition string_of_Z (z : Z) : string := NilZero.string_of_int (Z.to_int z).

(** [x || fallback] on a possibly missing property of any type whose
    present values are all truthy (arrays, coordinate pairs). *)
Definition or_default {A} (x : option A) (fallback : A) : A :=
  match x with Some a => a | None => fallback end.

(** [s || fallback] on a possibly missing string: an empty string falls
    back as well. *)
Definition or_string (s : option string) (fallback : string) : string :=
  match s with
  | Some t => if truthy t then t else fallback
  | None => fallback
  end.

(* ===================================================================== *)
(** * Data model                                                          *)
(* ===================================================================== *)

Definition Geo : Type := (Q * Q)%type.   (* [latitude, longitude] *)

Inductive Status : Type := active | completed | archived.

Record Intention : Type := {
  _id : string;
  intentionId : string;
  title : string;
  description : string;
  location : string;
  geo : option Geo;
  status : Status;
  createdBy : string;
  createdAt : Z;
  updatedAt : Z;
  tags : list string;
  category : string;
  completedAt : option Z;
  archivedAt : option Z;
  embedding : option (list Q);
  embeddedAt : option Z
}.

(** The argument of [createIntention]: every property may be missing. *)
Record IntentionData : Type := {
  data_title : option string;
  data_description : option string;
  data_location : option string;
  data_geo : option Geo;
  data_tags : option (list string);
  data_category : option string
}.

(** The [updates] argument of [updateIntention]: the properties present in
    the object literal; any property of a record may be among them. *)
Record Updates : Type := {
  upd__id : option string;
  upd_intentionId : option string;
  upd_title : option string;
  upd_description : option string;
  upd_location : option string;
  upd_geo : option (option Geo);
  upd_status : option Status;
  upd_createdBy : option string;
  upd_createdAt : option Z;
  upd_updatedAt : option Z;
  upd_tags : option (list string);
  upd_category : option string;
  upd_completedAt : option (option Z);
  upd_archivedAt : option (option Z);
  upd_embedding : option (option (list Q));
  upd_embeddedAt : option (option Z)
}.

(** The empty patch [{}]. *)
Definition no_updates : Updates :=
  {| upd__id := None; upd_intentionId := None; upd_title := None;
     upd_description := None; upd_location := None; upd_geo := None;
     upd_status := None; upd_createdBy := None; upd_createdAt := None;
     upd_updatedAt := None; upd_tags := None; upd_category := None;
     upd_completedAt := None; upd_archivedAt := None;
     upd_embedding := None; upd_embeddedAt := None |}.

(** An entry of the replicated documents store. *)
Record Entry : Type := {
  entry_hash : string;
  value : Intention
}.

(* ===================================================================== *)
(** * Awaited operations and the browser state                            *)
(* ===================================================================== *)

(** How a promise handed out by an external collaborator settles. *)
Inductive Settled (A : Type) : Type :=
| Resolves (ms : Z) (v : A)
| Rejects (ms : Z) (message : string)
| Never.
Arguments Resolves {A} ms v.
Arguments Rejects {A} ms message.
Arguments Never {A}.

(** External operations, in the order the code starts them. *)
Inductive Event : Type :=
| EvEmbed (text : string)
| EvCacheRead
| EvCacheWrite (snapshot : list Intention)
| EvStoreAll
| EvStoreGet (id : string)
| EvStorePut (doc : Intention)
| EvStoreDel (id : string)
| EvDial (multiaddr : string)
| EvSleep (ms : Z)
| EvOpen (address : string) (create : bool).

Record World : Type := {
  now : Z;                          (* what Date.now() reads *)
  random_suffix : string;           (* Math.random().toString(36).substr(2, 9) *)
  indexedDB_ok : bool;              (* whether the cache database opens *)
  cache_store : list Intention;     (* object store 'intentions' *)
  stored_address : option string;   (* localStorage, 'syncengine-database-address' *)
  url_db : option string;           (* query parameter db *)
  url_peers : option string;        (* query parameter peers, decoded *)
  trace : list Event                (* external operations so far, oldest first *)
}.

(** An asynchronous computation: it ends with a value, with an exception,
    or it never ends; the state changes it made remain in each case. *)
Inductive Outcome (A : Type) : Type :=
| Returns (a : A)
| Throws (message : string)
| Hangs.
Arguments Returns {A} a.
Arguments Throws {A} message.
Arguments Hangs {A}.

Definition Async (A : Type) : Type := World -> Outcome A * World.

Definition ret {A} (a : A) : Async A := fun w => (Returns a, w).

Definition throw {A} (message : string) : Async A := fun w => (Throws message, w).

Definition bind {A B} (m : Async A) (k : A -> Async B) : Async B :=
  fun w =>
    match m w with
    | (Returns a, w') => k a w'
    | (Throws e, w') => (Throws e, w')
    | (Hangs, w') => (Hangs, w')
    end.

(** [try { body } catch (error) { handler }] *)
Definition try_catch {A} (body : Async A) (handler : string -> Async A) : Async A :=
  fun w =>
    match body w with
    | (Throws e, w') => handler e w'
    | settled => settled
    end.

Declare Scope async_scope.
Delimit Scope async_scope with async.
Notation "x <- m ;; k" := (bind m (fun x => k))
  (at level 61, m at next level, right associativity) : async_scope.
Notation "m ;;; k" := (bind m (fun _ => k))
  (at level 61, right associativity) : async_scope.
Local Open Scope async_scope.

Definition get_world : Async World := fun w => (Returns w, w).

Definition log_event (e : Event) : Async unit :=
  fun w =>
    (Returns tt,
     {| now := now w; random_suffix := random_suffix w;
        indexedDB_ok := indexedDB_ok w; cache_store := cache_store w;
        stored_address := stored_address w; url_db := url_db w;
        url_peers := url_peers w; trace := trace w ++ [e] |}).

Definition advance (ms : Z) : Async unit :=
  fun w =>
    (Returns tt,
     {| now := (now w + ms)%Z; random_suffix := random_suffix w;
        indexedDB_ok := indexedDB_ok w; cache_store := cache_store w;
        stored_address := stored_address w; url_db := url_db w;
        url_peers := url_peers w; trace := trace w |}).

(** [Date.now()] *)
Definition Date_now : Async Z := fun w => (Returns (now w), w).

(** [await p] *)
Definition await {A} (p : Settled A) : Async A :=
  match p with
  | Resolves ms v => advance ms ;;; ret v
  | Rejects ms e => advance ms ;;; throw e
  | Never => fun w => (Hangs, w)
  end.

(** [await Promise.race([p, new Promise((_, reject) =>
      setTimeout(() => reject(new Error(message)), deadline))])]:
    the operation wins when it settles strictly before the deadline. *)
Definition race_timeout {A} (p : Settled A) (deadline : Z) (message : string) : Async A :=
  match p with
  | Resolves ms v =>
      if (ms <? deadline)%Z then advance ms ;;; ret v
      else advance deadline ;;; throw message
  | Rejects ms e =>
      if (ms <? deadline)%Z then advance ms ;;; throw e
      else advance deadline ;;; throw message
  | Never => advance deadline ;;; throw message
  end.

(** [await new Promise(resolve => setTimeout(resolve, ms))] *)
Definition sleep (ms : Z) : Async unit := log_event (EvSleep ms) ;;; advance ms.

(* ===================================================================== *)
(** * intention-search-engine.js                                          *)
(* ===================================================================== *)

(** The embedding capability: [generateEmbedding(text)], consumed as a
    function from text to a vector. *)
Class EmbeddingModel : Type := {
  generateEmbedding : string -> list Q
}.

Definition with_embedding (i : Intention) (e : list Q) (t : Z) : Intention :=
  {| _id := _id i; intentionId := intentionId i; title := title i;
     description := description i; location := location i; geo := geo i;
     status := status i; createdBy := createdBy i; createdAt := createdAt i;
     updatedAt := updatedAt i; tags := tags i; category := category i;
     completedAt := completedAt i; archivedAt := archivedAt i;
     embedding := Some e; embeddedAt := Some t |}.

(** The text an intention is embedded from:
    [`${intention.title} ${intention.description || ''}`]. *)
Definition textToEmbed (i : Intention) : string :=
  title i ++ " " ++ description i.

Section SearchEngine.
Context {M : MathLib} {E : EmbeddingModel}.

Definition embedIntention (intention : Intention) : Async Intention :=
  log_event (EvEmbed (textToEmbed intention)) ;;;
  let embedding := generateEmbedding (textToEmbed intention) in
  t <- Date_now ;;
  ret (with_embedding intention embedding t).

(** One turn of the loop of [cosineSimilarity] on the accumulators
    [(dotProduct, normA, normB)]. *)
Definition cosine_step (acc : Q * Q * Q) (ab : Q * Q) : Q * Q * Q :=
  let '(dotProduct, normA, normB) := acc in
  let '(a, b) := ab in
  (dotProduct + a * b, normA + a * a, normB + b * b).

Definition cosine_sums (vecA vecB : list Q) : Q * Q * Q :=
  fold_left cosine_step (combine vecA vecB) (0, 0, 0).

Definition cosineSimilarity (vecA vecB : list Q) : Result number :=
  if negb (List.length vecA =? List.length vecB)%nat then
    Throw "Vectors must have same length"
  else
    let '(dotProduct, normA, normB) := cosine_sums vecA vecB in
    Ok (ndiv (Fin dotProduct)
             (nmul (Math_sqrt (Fin normA)) (Math_sqrt (Fin normB)))).

Definition geoDistance (geo1 geo2 : option Geo) : number :=
  match geo1, geo2 with
  | Some (lat1, lon1), Some (lat2, lon2) =>
      let R := 6371 in
      let dLat := ((lat2 - lat1) * Math_PI) / 180 in
      let dLon := ((lon2 - lon1) * Math_PI) / 180 in
      let a :=
        sin_fin (dLat / 2) * sin_fin (dLat / 2) +
        cos_fin ((lat1 * Math_PI) / 180) *
          cos_fin ((lat2 * Math_PI) / 180) *
          sin_fin (dLon / 2) *
          sin_fin (dLon / 2) in
      let c :=
        nmul (Fin 2)
             (Math_atan2 (Math_sqrt (Fin a)) (Math_sqrt (Fin (1 - a)))) in
      nmul (Fin R) c
  | _, _ => PosInf
  end.

(** [normalizeGeoScore(distance, maxDistance = 100)]; [None] is the
    omitted second argument. *)
Definition normalizeGeoScore (distance : number) (maxDistance : option number) : number :=
  let maxDistance := or_default maxDistance (Fin 100) in
  if nstrict_eq distance PosInf then Fin 0
  else Math_max (Fin 0) (nsub (Fin 1) (ndiv distance maxDistance)).

Record Dimensions : Type := { width : number; height : number }.

Definition PHI : Q := 1618 # 1000.

(** The local [scaleFactor] of [calculateCardDimensions]. *)
Definition scaleFactor (score : number) : number :=
  nadd (Fin (1 # 2)) (nmul score (Fin (1 # 2))).

(** [calculateCardDimensions(score, baseWidth = 320)] *)
Definition calculateCardDimensions (score : number) (baseWidth : option number) : Dimensions :=
  let baseWidth := or_default baseWidth (Fin 320) in
  let width := Math_round (nmul baseWidth (scaleFactor score)) in
  let height := Math_round (ndiv width (Fin PHI)) in
  {| width := width; height := height |}.

(** The [options] argument of [searchIntentions]; a missing property
    takes the default of the destructuring pattern. *)
Record SearchOptions : Type := {
  userLocation : option Geo;
  semanticWeight : option Q;
  geoWeight : option Q;
  minScore : option Q;
  maxResults : option nat
}.

Definition no_options : SearchOptions :=
  {| userLocation := None; semanticWeight := None; geoWeight := None;
     minScore := None; maxResults := None |}.

Definition semanticWeight_of (o : SearchOptions) : Q := or_default (semanticWeight o) (7 # 10).
Definition geoWeight_of (o : SearchOptions) : Q := or_default (geoWeight o) (3 # 10).
Definition minScore_of (o : SearchOptions) : Q := or_default (minScore o) (1 # 10).
Definition maxResults_of (o : SearchOptions) : nat := or_default (maxResults o) 50%nat.

Record Score : Type := { combined : number; semantic : number; geo_score : number }.

(** A search result: the intention's own properties, spread, plus the
    scores and the display hints. *)
Record SearchResult : Type := {
  intention_of : Intention;
  score : Score;
  dimensions : Dimensions;
  matchPercentage : number
}.

(** Whether both a caller location and the item's coordinates exist. *)
Definition hasGeoContext (o : SearchOptions) (intention : Intention) : bool :=
  match userLocation o, geo intention with
  | Some _, Some _ => true
  | _, _ => false
  end.

(** The callback of [intentions.map]: [None] is the [null] returned for
    an intention without embedding. *)
Definition score_intention (o : SearchOptions) (queryEmbedding : list Q)
    (intention : Intention) : Result (option SearchResult) :=
  match embedding intention with
  | None => Ok None
  | Some itemEmbedding =>
      match cosineSimilarity queryEmbedding itemEmbedding with
      | Throw m => Throw m
      | Ok semanticScore =>
          let geoScore :=
            if hasGeoContext o intention then
              normalizeGeoScore (geoDistance (userLocation o) (geo intention)) None
            else Fin 0 in
          let combinedScore :=
            if hasGeoContext o intention then
              nadd (nmul semanticScore (Fin (semanticWeight_of o)))
                   (nmul geoScore (Fin (geoWeight_of o)))
            else semanticScore in
          let dimensions := calculateCardDimensions combinedScore None in
          Ok (Some {| intention_of := intention;
                      score := {| combined := combinedScore;
                                  semantic := semanticScore;
                                  geo_score := geoScore |};
                      dimensions := dimensions;
                      matchPercentage := Math_round (nmul combinedScore (Fin 100)) |})
      end
  end.

(** The predicate of [.filter]. *)
Definition keep_result (o : SearchOptions) (result : option SearchResult) : bool :=
  match result with
  | None => false
  | Some r => nge (combined (score r)) (Fin (minScore_of o))
  end.

(** The comparator of [.sort]: [b.score.combined - a.score.combined]. *)
Definition by_combined_desc (a b : SearchResult) : number :=
  nsub (combined (score b)) (combined (score a)).

(** The non-null entries of an array, in order. *)
Fixpoint present {A} (xs : list (option A)) : list A :=
  match xs with
  | [] => []
  | Some x :: rest => x :: present rest
  | None :: rest => present rest
  end.

Definition searchIntentions (query : string) (intentions : list Intention)
    (options : SearchOptions) : Result (list SearchResult) :=
  let queryEmbedding := generateEmbedding query in
  match map_result (score_intention options queryEmbedding) intentions with
  | Throw m => Throw m
  | Ok scored =>
      Ok (firstn (maxResults_of options)
            (js_sort by_combined_desc
               (present (filter (keep_result options) scored))))
  end.
End SearchEngine.

(* ===================================================================== *)
(** * database.js: the IndexedDB cache                                    *)
(* ===================================================================== *)

(** [store.put(x)] on an object store with key path [intentionId]: the
    records are held in key order, a record with the same key is replaced. *)
Fixpoint idb_put (x : Intention) (store : list Intention) : list Intention :=
  match store with
  | [] => [x]
  | y :: rest =>
      match String.compare (intentionId x) (intentionId y) with
      | Lt => x :: y :: rest
      | Eq => x :: rest
      | Gt => y :: idb_put x rest
      end
  end.

(** [store.clear()] followed by one [store.put] per record. *)
Definition idb_replace_all (intentions : list Intention) : list Intention :=
  fold_left (fun store x => idb_put x store) intentions [].

Definition set_cache_store (store : list Intention) : Async unit :=
  fun w =>
    (Returns tt,
     {| now := now w; random_suffix := random_suffix w;
        indexedDB_ok := indexedDB_ok w; cache_store := store;
        stored_address := stored_address w; url_db := url_db w;
        url_peers := url_peers w; trace := trace w |}).

(** The comparator [(a, b) => b.createdAt - a.createdAt]. *)
Definition by_createdAt_desc (a b : Intention) : number :=
  Fin (inject_Z (createdAt b - createdAt a)).

(** [openCacheDB()]: rejects when IndexedDB cannot be opened. *)
Definition openCacheDB : Async unit :=
  w <- get_world ;;
  if indexedDB_ok w then ret tt else throw "IndexedDB unavailable".

Definition loadIntentionsFromCache : Async (list Intention) :=
  log_event EvCacheRead ;;;
  try_catch
    (openCacheDB ;;;
     w <- get_world ;;
     ret (js_sort by_createdAt_desc (cache_store w)))
    (fun _ => ret []).

Definition saveIntentionsToCache (intentions : list Intention) : Async unit :=
  log_event (EvCacheWrite intentions) ;;;
  try_catch
    (openCacheDB ;;;
     set_cache_store (idb_replace_all intentions))
    (fun _ => ret tt).

(* ===================================================================== *)
(** * database.js: the replicated store and the join                      *)
(* ===================================================================== *)

(** An opened documents store, as far as the code uses it. *)
Record Database : Type := {
  db_name : string;
  address : string;
  identity_id : string;                        (* database.identity.id *)
  all : Settled (list Entry);                  (* database.all() *)
  get : string -> Settled (list Intention);    (* database.get(id) *)
  put : Intention -> Settled unit;             (* database.put(doc) *)
  del : string -> Settled unit;                (* database.del(id) *)
  _isNewDatabase : bool;
  _isJoinedViaInvitation : bool
}.

Definition set_flags (d : Database) (isNew viaInvitation : bool) : Database :=
  {| db_name := db_name d; address := address d; identity_id := identity_id d;
     all := all d; get := get d; put := put d; del := del d;
     _isNewDatabase := isNew; _isJoinedViaInvitation := viaInvitation |}.

(** [orbitdb.open(address, options)]; [create] tells the two option sets
    of the source apart (the creating one also grants write access to
    everybody). *)
Record OrbitDB : Type := {
  open : string -> bool -> Settled Database
}.

(** [libp2p.dial(multiaddr)] *)
Record Libp2p : Type := {
  dial : string -> Settled unit
}.

Definition localStorage_getItem : Async (option string) :=
  w <- get_world ;; ret (stored_address w).

Definition set_stored_address (a : option string) : Async unit :=
  fun w =>
    (Returns tt,
     {| now := now w; random_suffix := random_suffix w;
        indexedDB_ok := indexedDB_ok w; cache_store := cache_store w;
        stored_address := a; url_db := url_db w;
        url_peers := url_peers w; trace := trace w |}).

Definition localStorage_setItem (a : string) : Async unit := set_stored_address (Some a).
Definition localStorage_removeItem : Async unit := set_stored_address None.

Definition getDatabaseAddressFromURL : Async (option string) :=
  w <- get_world ;;
  match url_db w with
  | Some dbAddress => if truthy dbAddress then ret (Some dbAddress) else ret None
  | None => ret None
  end.

(** The value of a hexadecimal digit of either case. *)
Definition hex_value (c : ascii) : option N :=
  let n := N_of_ascii c in
  if ((48 <=? n) && (n <=? 57))%N then Some (n - 48)%N
  else if ((65 <=? n) && (n <=? 70))%N then Some (n - 55)%N
  else if ((97 <=? n) && (n <=? 102))%N then Some (n - 87)%N
  else None.

(** After the first byte of a UTF-8 sequence of more than one byte: how
    many bytes follow, and the range the next of them lies in.  [None] for
    a byte that cannot start a sequence. *)
Definition utf8_follow (b : N) : option (nat * (N * N)) :=
  if (b <? 194)%N then None
  else if (b <=? 223)%N then Some (1%nat, (128, 191)%N)
  else if (b =? 224)%N then Some (2%nat, (160, 191)%N)
  else if (b =? 237)%N then Some (2%nat, (128, 159)%N)
  else if (b <=? 239)%N then Some (2%nat, (128, 191)%N)
  else if (b =? 240)%N then Some (3%nat, (144, 191)%N)
  else if (b <=? 243)%N then Some (3%nat, (128, 191)%N)
  else if (b =? 244)%N then Some (3%nat, (128, 143)%N)
  else None.

Definition prepend (c : ascii) (decoded : Result string) : Result string :=
  match decoded with
  | Ok s => Ok (String c s)
  | Throw m => Throw m
  end.

(** The decoding loop of [decodeURIComponent], on the UTF-8 bytes of the
    string.  [pending] bytes of a sequence are still due, the next of
    them within [lo..hi]; a byte of a sequence can only come as an escape.
    A [%] without two hexadecimal digits, an escape that cannot start or
    continue a sequence, and a sequence cut short are a [URIError], thrown
    here with the message V8 gives it. *)
Fixpoint decode_from (pending : nat) (lo hi : N) (s : string) : Result string :=
  match s with
  | EmptyString =>
      match pending with
      | O => Ok EmptyString
      | S _ => Throw "URI malformed"
      end
  | String c tail =>
      if Ascii.eqb c "%" then
        match tail with
        | String h (String l rest) =>
            match hex_value h, hex_value l with
            | Some a, Some b =>
                let B := (16 * a + b)%N in
                match pending with
                | O =>
                    if (B <? 128)%N then
                      prepend (ascii_of_N B) (decode_from 0 0 0 rest)
                    else
                      match utf8_follow B with
                      | Some (n, (lo', hi')) =>
                          prepend (ascii_of_N B) (decode_from n lo' hi' rest)
                      | None => Throw "URI malformed"
                      end
                | S n =>
                    if ((lo <=? B) && (B <=? hi))%N then
                      prepend (ascii_of_N B) (decode_from n 128 191 rest)
                    else Throw "URI malformed"
                end
            | _, _ => Throw "URI malformed"
            end
        | _ => Throw "URI malformed"
        end
      else
        match pending with
        | O => prepend c (decode_from 0 0 0 tail)
        | S _ => Throw "URI malformed"
        end
  end.

Definition decodeURIComponent (s : string) : Result string := decode_from 0 0 0 s.

(** [decodeURIComponent(peersParam).split(',').filter(addr =>
    addr.trim().length > 0)] *)
Definition multiaddrs_of_param (peersParam : string) : Result (list string) :=
  match decodeURIComponent peersParam with
  | Ok decoded =>
      Ok (filter (fun addr => (0 <? String.length (trim addr))%nat)
                 (split_comma decoded))
  | Throw m => Throw m
  end.

(** What [getPeerMultiaddrsFromURL()] does for a given [peers] parameter:
    [Ok None] is the [null] returned, [Throw] the [URIError] of the
    decoding. *)
Definition peers_of_param (peers : option string) : Result (option (list string)) :=
  match peers with
  | Some peersParam =>
      if truthy peersParam then
        match multiaddrs_of_param peersParam with
        | Ok multiaddrs =>
            if (0 <? List.length multiaddrs)%nat then Ok (Some multiaddrs)
            else Ok None
        | Throw m => Throw m
        end
      else Ok None
  | None => Ok None
  end.

Definition getPeerMultiaddrsFromURL : Async (option (list string)) :=
  w <- get_world ;;
  match peers_of_param (url_peers w) with
  | Ok peerMultiaddrs => ret peerMultiaddrs
  | Throw m => throw m
  end.

(** [clearDatabaseFromURL()]: when a [db] parameter is there, the address
    bar is replaced by origin and path, which drops every parameter. *)
Definition clearDatabaseFromURL : Async unit :=
  fun w =>
    match url_db w with
    | Some _ =>
        (Returns tt,
         {| now := now w; random_suffix := random_suffix w;
            indexedDB_ok := indexedDB_ok w; cache_store := cache_store w;
            stored_address := stored_address w; url_db := None;
            url_peers := None; trace := trace w |})
    | None => (Returns tt, w)
    end.

(** When the promise of one dial attempt settles, and with which value:
    the [try]/[catch] around [libp2p.dial] turns a refusal into [false]. *)
Definition dial_attempt (libp2p : Libp2p) (multiaddr : string) : Settled bool :=
  match dial libp2p multiaddr with
  | Resolves ms _ => Resolves ms true
  | Rejects ms _ => Resolves ms false
  | Never => Never
  end.

(** [Promise.allSettled(promises)] for promises that cannot reject: it
    resolves once the slowest has, with every value. *)
Fixpoint allSettled {A} (promises : list (Settled A)) : Settled (list A) :=
  match promises with
  | [] => Resolves 0 []
  | p :: rest =>
      match p, allSettled rest with
      | Resolves ms v, Resolves ms' vs => Resolves (Z.max ms ms') (v :: vs)
      | _, _ => Never
      end
  end.

Fixpoint log_events (es : list Event) : Async unit :=
  match es with
  | [] => ret tt
  | e :: rest => log_event e ;;; log_events rest
  end.

Definition dialDirectPeers (libp2p : option Libp2p) (multiaddrs : option (list string)) : Async bool :=
  match libp2p, multiaddrs with
  | Some libp2p, Some (first :: others) =>
      let multiaddrs := first :: others in
      log_events (map EvDial multiaddrs) ;;;
      let dialPromises := map (dial_attempt libp2p) multiaddrs in
      try_catch
        (results <- race_timeout (allSettled dialPromises) 10000
                      "Direct dial timeout after 10 seconds" ;;
         let successCount := List.length (filter (fun r => r) results) in
         if (0 <? successCount)%nat then ret true else ret false)
        (fun _ => ret false)
  | _, _ => ret false
  end.

Definition peer_unreachable_message : string :=
  "Failed to connect to peer. Please ensure both devices are online and try again. " ++
  "If the problem persists, the peer may be behind a firewall or NAT that prevents direct connections.".

Definition discovery_timeout_message : string :=
  "Failed to discover database peers after 90 seconds. " ++
  "This may be due to network issues or the database creator being offline. " ++
  "Please ask them to keep their browser window open and try again.".

Definition has_peers (peerMultiaddrs : option (list string)) : bool :=
  match peerMultiaddrs with
  | Some (_ :: _) => true
  | _ => false
  end.

(** [orbitdb.open(address, ...)], recorded on the trace when started. *)
Definition start_open (orbitdb : OrbitDB) (addr : string) (create : bool) : Async (Settled Database) :=
  log_event (EvOpen addr create) ;;; ret (open orbitdb addr create).

(** The first step of the invitation branch: with peer addresses in the
    link and a libp2p instance, dial them, and give a connected peer a
    moment to settle. *)
Definition connect_directly (libp2p : option Libp2p)
    (peerMultiaddrs : option (list string)) : Async bool :=
  if has_peers peerMultiaddrs &&
     match libp2p with Some _ => true | None => false end
  then
    connected <- dialDirectPeers libp2p peerMultiaddrs ;;
    (if connected : bool then sleep 1000 else ret tt) ;;;
    ret connected
  else ret false.

(** The second step: open the invited store, 30 s after a direct
    connection and 90 s otherwise, then remember its address and clean
    the address bar. *)
Definition open_invited (orbitdb : OrbitDB) (urlAddress : string)
    (directPeerConnected : bool) : Async Database :=
  let timeout := if directPeerConnected then 30000%Z else 90000%Z in
  let timeoutMessage :=
    if directPeerConnected
    then "Database open timeout after 30 seconds"
    else "Database open timeout after 90 seconds (peer discovery via bootstrap)" in
  opening <- start_open orbitdb urlAddress false ;;
  database <- race_timeout opening timeout timeoutMessage ;;
  localStorage_setItem urlAddress ;;;
  clearDatabaseFromURL ;;;
  ret database.

(** The branch of [openIntentionsDatabase] taken for a magic-link
    invitation: the two steps inside [try], and the [catch] that cleans
    the address bar and throws the error fitting the link. *)
Definition join_via_invitation (orbitdb : OrbitDB) (libp2p : option Libp2p)
    (urlAddress : string) (peerMultiaddrs : option (list string)) : Async Database :=
  try_catch
    (directPeerConnected <- connect_directly libp2p peerMultiaddrs ;;
     open_invited orbitdb urlAddress directPeerConnected)
    (fun _ =>
       clearDatabaseFromURL ;;;
       if has_peers peerMultiaddrs
       then throw peer_unreachable_message
       else throw discovery_timeout_message).

Definition globalDatabaseName : string := "syncengine-global-intentions".

Definition openIntentionsDatabase (orbitdb : OrbitDB) (libp2p : option Libp2p) : Async Database :=
  urlAddress <- getDatabaseAddressFromURL ;;
  peerMultiaddrs <- getPeerMultiaddrsFromURL ;;
  storedAddress <- localStorage_getItem ;;
  (* Try URL address first (magic link invitation) *)
  joined <-
    match urlAddress with
    | Some urlAddress =>
        database <- join_via_invitation orbitdb libp2p urlAddress peerMultiaddrs ;;
        ret (Some database)
    | None => ret None
    end ;;
  (* Try stored address if magic link wasn't present *)
  reopened <-
    match joined, storedAddress, urlAddress with
    | None, Some stored, None =>
        if truthy stored then
          try_catch
            (opening <- start_open orbitdb stored false ;;
             database <- race_timeout opening 30000
                           "Database open timeout after 30 seconds" ;;
             ret (Some database))
            (fun _ => localStorage_removeItem ;;; ret None)
        else ret None
    | _, _, _ => ret joined
    end ;;
  (* If no stored address or connection failed, create a new database *)
  match reopened with
  | Some database =>
      ret (set_flags database false
             (match urlAddress with Some _ => true | None => false end))
  | None =>
      opening <- start_open orbitdb globalDatabaseName true ;;
      database <- race_timeout opening 15000
                    "Database open timeout after 15 seconds" ;;
      localStorage_setItem (address database) ;;;
      ret (set_flags database true
             (match urlAddress with Some _ => true | None => false end))
  end.

(* ===================================================================== *)
(** * database.js: reading and writing intentions                         *)
(* ===================================================================== *)

Section WritePipeline.
Context {M : MathLib} {E : EmbeddingModel}.

(** [loadIntentions(database, isNewDatabase = false)]; [None] is a
    missing database. *)
Definition loadIntentions (database : option Database) (isNewDatabase : bool) : Async (list Intention) :=
  match database with
  | None => ret []
  | Some database =>
      try_catch
        (if isNewDatabase then ret []
         else
           log_event EvStoreAll ;;;
           allIntentions <- race_timeout (all database) 30000
                              "Database.all() timeout after 30 seconds" ;;
           let intentions := js_sort by_createdAt_desc (map value allIntentions) in
           saveIntentionsToCache intentions ;;;
           ret intentions)
        (fun _ => ret [])
  end.

(** The validation at the head of [createIntention]:
    [!intentionData.title || !intentionData.title.trim()]. *)
Definition title_missing (intentionData : IntentionData) : bool :=
  match data_title intentionData with
  | None => true
  | Some t => negb (truthy t) || negb (truthy (trim t))
  end.

Definition createIntention (database : option Database) (intentionData : IntentionData) : Async Intention :=
  match database with
  | None => throw "Database is required"
  | Some database =>
      if title_missing intentionData then throw "Intention title is required"
      else
        try_catch
          (startTime <- Date_now ;;
           stamp <- Date_now ;;
           w <- get_world ;;
           let intentionId := "int_" ++ string_of_Z stamp ++ "_" ++ random_suffix w in
           created <- Date_now ;;
           updated <- Date_now ;;
           let intention :=
             {| _id := intentionId;
                intentionId := intentionId;
                title := trim (or_default (data_title intentionData) "");
                description :=
                  match data_description intentionData with
                  | Some d => if truthy (trim d) then trim d else ""
                  | None => ""
                  end;
                location := or_string (data_location intentionData) "";
                geo := data_geo intentionData;
                status := active;
                createdBy := identity_id database;
                createdAt := created;
                updatedAt := updated;
                tags := or_default (data_tags intentionData) [];
                category := or_string (data_category intentionData) "general";
                completedAt := None;
                archivedAt := None;
                embedding := None;
                embeddedAt := None |} in
           intentionWithEmbedding <- embedIntention intention ;;
           (* Cache FIRST for instant UI (optimistic update) *)
           currentCache <- loadIntentionsFromCache ;;
           saveIntentionsToCache (currentCache ++ [intentionWithEmbedding])%list ;;;
           (* Try to save to OrbitDB (don't fail if it times out) *)
           try_catch
             (log_event (EvStorePut intentionWithEmbedding) ;;;
              race_timeout (put database intentionWithEmbedding) 15000
                "Database write timeout after 15 seconds" ;;;
              endTime <- Date_now ;;
              ret tt)
             (fun _ => ret tt) ;;;
           ret intentionWithEmbedding)
          (fun error => throw error)
  end.

(** [{ ...existing, ...updates, updatedAt }] *)
Definition merge_updates (existing : Intention) (updates : Updates) (stamp : Z) : Intention :=
  {| _id := or_default (upd__id updates) (_id existing);
     intentionId := or_default (upd_intentionId updates) (intentionId existing);
     title := or_default (upd_title updates) (title existing);
     description := or_default (upd_description updates) (description existing);
     location := or_default (upd_location updates) (location existing);
     geo := or_default (upd_geo updates) (geo existing);
     status := or_default (upd_status updates) (status existing);
     createdBy := or_default (upd_createdBy updates) (createdBy existing);
     createdAt := or_default (upd_createdAt updates) (createdAt existing);
     updatedAt := stamp;
     tags := or_default (upd_tags updates) (tags existing);
     category := or_default (upd_category updates) (category existing);
     completedAt := or_default (upd_completedAt updates) (completedAt existing);
     archivedAt := or_default (upd_archivedAt updates) (archivedAt existing);
     embedding := or_default (upd_embedding updates) (embedding existing);
     embeddedAt := or_default (upd_embeddedAt updates) (embeddedAt existing) |}.

(** The test guarding the regeneration:
    [updates.title || updates.description]. *)
Definition wants_reembedding (updates : Updates) : bool :=
  truthy_opt (upd_title updates) || truthy_opt (upd_description updates).

Definition updateIntention (database : option Database) (intentionId : string)
    (updates : Updates) : Async Intention :=
  match database with
  | Some database =>
      if negb (truthy intentionId) then throw "Database and intentionId are required"
      else
        try_catch
          (startTime <- Date_now ;;
           log_event (EvStoreGet intentionId) ;;;
           existing <- await (get database intentionId) ;;
           match existing with
           | [] => throw ("Intention " ++ intentionId ++ " not found")
           | first :: _ =>
               stamp <- Date_now ;;
               let updatedIntention := merge_updates first updates stamp in
               if wants_reembedding updates then
                 reembedded <- embedIntention updatedIntention ;;
                 log_event (EvStorePut reembedded) ;;;
                 await (put database reembedded) ;;;
                 endTime <- Date_now ;;
                 ret reembedded
               else
                 log_event (EvStorePut updatedIntention) ;;;
                 await (put database updatedIntention) ;;;
                 endTime <- Date_now ;;
                 ret updatedIntention
           end)
          (fun error => throw error)
  | None => throw "Database and intentionId are required"
  end.
End WritePipeline.

(* ===================================================================== *)
(** * CreateIntentionForm.svelte: [handleSubmit]                          *)
(* ===================================================================== *)

Record FormFields : Type := {
  form_title : string;
  form_description : string;
  form_location : string;
  form_category : string;
  form_tags : string
}.

(** What a submission does: it either shows an error message and
    dispatches nothing, or dispatches [create] with the intention data. *)
Inductive Submission : Type :=
| Rejected (errorMessage : string)
| Dispatched (intentionData : IntentionData).

Definition handleSubmit (f : FormFields) : Submission :=
  if negb (truthy (trim (form_title f))) then Rejected "title required"
  else if (200 <? String.length (form_title f))%nat then
    Rejected "title too long (max 200 chars)"
  else if (2000 <? String.length (form_description f))%nat then
    Rejected "description too long (max 2000 chars)"
  else
    Dispatched
      {| data_title := Some (trim (form_title f));
         data_description := Some (trim (form_description f));
         data_location := Some (trim (form_location f));
         data_geo := None;
         data_tags :=
           Some (filter (fun t => (0 <? String.length t)%nat)
                   (map trim (split_comma (form_tags f))));
         data_category := Some (form_category f) |}.

(* ===================================================================== *)
(** * database.js: the remaining operations                               *)
(* ===================================================================== *)

(** [clearIntentionsCache()] *)
Definition clearIntentionsCache : Async unit :=
  try_catch
    (openCacheDB ;;;
     set_cache_store [])
    (fun _ => ret tt).

Section LifecycleOperations.
Context {E : EmbeddingModel}.

(** The patch [{ status, completedAt }] or [{ status, archivedAt }]. *)
Definition lifecycle_patch (s : Status) (completed archivedStamp : option Z) : Updates :=
  {| upd__id := None; upd_intentionId := None; upd_title := None;
     upd_description := None; upd_location := None; upd_geo := None;
     upd_status := Some s; upd_createdBy := None; upd_createdAt := None;
     upd_updatedAt := None; upd_tags := None; upd_category := None;
     upd_completedAt := option_map Some completed;
     upd_archivedAt := option_map Some archivedStamp;
     upd_embedding := None; upd_embeddedAt := None |}.

Definition completeIntention (database : option Database) (intentionId : string) : Async Intention :=
  stamp <- Date_now ;;
  updateIntention database intentionId (lifecycle_patch completed (Some stamp) None).

Definition archiveIntention (database : option Database) (intentionId : string) : Async Intention :=
  stamp <- Date_now ;;
  updateIntention database intentionId (lifecycle_patch archived None (Some stamp)).
End LifecycleOperations.

Definition deleteIntention (database : option Database) (intentionId : string) : Async unit :=
  match database with
  | Some database =>
      if negb (truthy intentionId) then throw "Database and intentionId are required"
      else
        try_catch
          (startTime <- Date_now ;;
           log_event (EvStoreDel intentionId) ;;;
           await (del database intentionId) ;;;
           endTime <- Date_now ;;
           ret tt)
          (fun error => throw error)
  | None => throw "Database and intentionId are required"
  end.

(** [getIntentionById(database, id)]; [None] is [null]. *)
Definition getIntentionById (database : option Database) (intentionId : string) : Async (option Intention) :=
  match database with
  | Some database =>
      if negb (truthy intentionId) then ret None
      else
        try_catch
          (log_event (EvStoreGet intentionId) ;;;
           results <- await (get database intentionId) ;;
           match results with
           | first :: _ => ret (Some first)
           | [] => ret None
           end)
          (fun _ => ret None)
  | None => ret None
  end.

Definition status_eqb (a b : Status) : bool :=
  match a, b with
  | active, active | completed, completed | archived, archived => true
  | _, _ => false
  end.

Record IntentionStats : Type := {
  stats_total : nat;
  stats_active : nat;
  stats_completed : nat;
  stats_archived : nat;
  stats_withLocation : nat
}.

Definition getIntentionStats (intentions : list Intention) : IntentionStats :=
  {| stats_total := List.length intentions;
     stats_active :=
       List.length (filter (fun i => status_eqb (status i) active) intentions);
     stats_completed :=
       List.length (filter (fun i => status_eqb (status i) completed) intentions);
     stats_archived :=
       List.length (filter (fun i => status_eqb (status i) archived) intentions);
     stats_withLocation :=
       List.length
         (filter (fun i => match geo i with Some _ => true | None => false end)
                 intentions) |}.

Definition filterIntentionsByStatus (intentions : list Intention) (s : Status) : list Intention :=
  filter (fun i => status_eqb (status i) s) intentions.

(** [tags.includes(tag)] *)
Definition includes (wanted : list string) (tag : string) : bool :=
  existsb (String.eqb tag) wanted.

Definition filterIntentionsByTags (intentions : list Intention) (wanted : list string) : list Intention :=
  filter (fun i => existsb (includes wanted) (tags i)) intentions.

(* ===================================================================== *)
(** * intention-search-engine.js: batch embedding                         *)
(* ===================================================================== *)

Section BatchEmbedding.
Context {E : EmbeddingModel}.

(** The loop of [batchEmbedIntentions] from index [i] on: [pending] are
    the intentions not yet visited, [embedded] the array built so far,
    [total] is [intentions.length]. *)
Fixpoint batch_loop (progressCallback : option (nat -> nat -> Async unit))
    (total i : nat) (pending embedded : list Intention) : Async (list Intention) :=
  match pending with
  | [] => ret embedded
  | intention :: rest =>
      match embedding intention with
      | Some _ =>
          batch_loop progressCallback total (S i) rest (embedded ++ [intention])%list
      | None =>
          withEmbedding <- embedIntention intention ;;
          match progressCallback with
          | Some callback => callback (S i) total
          | None => ret tt
          end ;;;
          batch_loop progressCallback total (S i) rest (embedded ++ [withEmbedding])%list
      end
  end.

(** [batchEmbedIntentions(intentions, progressCallback = null)] *)
Definition batchEmbedIntentions (intentions : list Intention)
    (progressCallback : option (nat -> nat -> Async unit)) : Async (list Intention) :=
  batch_loop progressCallback (List.length intentions) 0 intentions [].
End BatchEmbedding.

(* ===================================================================== *)
(** * src/lib/database.js: the variant without cache                      *)
(* ===================================================================== *)

Module DirectAdapter.
Section Direct.
Context {E : EmbeddingModel}.

(** Always the global store, created if need be, within 15 s. *)
Definition openIntentionsDatabase (orbitdb : OrbitDB) : Async Database :=
  opening <- start_open orbitdb globalDatabaseName true ;;
  race_timeout opening 15000 "Database open timeout after 15 seconds".

Definition loadIntentions (database : option Database) : Async (list Intention) :=
  match database with
  | None => ret []
  | Some database =>
      try_catch
        (log_event EvStoreAll ;;;
         allIntentions <- race_timeout (all database) 10000
                            "Database.all() timeout after 10 seconds" ;;
         ret (js_sort by_createdAt_desc (map value allIntentions)))
        (fun error => throw error)
  end.

Definition createIntention (database : option Database) (intentionData : IntentionData) : Async Intention :=
  match database with
  | None => throw "Database is required"
  | Some database =>
      if title_missing intentionData then throw "Intention title is required"
      else
        try_catch
          (startTime <- Date_now ;;
           stamp <- Date_now ;;
           w <- get_world ;;
           let intentionId := "int_" ++ string_of_Z stamp ++ "_" ++ random_suffix w in
           created <- Date_now ;;
           updated <- Date_now ;;
           let intention :=
             {| _id := intentionId;
                intentionId := intentionId;
                title := trim (or_default (data_title intentionData) "");
                description :=
                  match data_description intentionData with
                  | Some d => if truthy (trim d) then trim d else ""
                  | None => ""
                  end;
                location := or_string (data_location intentionData) "";
                geo := data_geo intentionData;
                status := active;
                createdBy := identity_id database;
                createdAt := created;
                updatedAt := updated;
                tags := or_default (data_tags intentionData) [];
                category := or_string (data_category intentionData) "general";
                completedAt := None;
                archivedAt := None;
                embedding := None;
                embeddedAt := None |} in
           intentionWithEmbedding <- embedIntention intention ;;
           log_event (EvStorePut intentionWithEmbedding) ;;;
           await (put database intentionWithEmbedding) ;;;
           endTime <- Date_now ;;
           ret intentionWithEmbedding)
          (fun error => throw error)
  end.
End Direct.
End DirectAdapter.

(* ===================================================================== *)
(** * InvitationPanel.svelte: the magic link, and how the join reads it   *)
(* ===================================================================== *)

(** The characters [encodeURIComponent] leaves alone:
    [A-Z a-z 0-9 - _ . ! ~ * ' ( )]. *)
Definition is_unreserved (c : ascii) : bool :=
  let n := N_of_ascii c in
  ((65 <=? n) && (n <=? 90))%N || ((97 <=? n) && (n <=? 122))%N
  || ((48 <=? n) && (n <=? 57))%N
  || existsb (N.eqb n) [45; 95; 46; 33; 126; 42; 39; 40; 41]%N.

(** One upper-case hexadecimal digit. *)
Definition hex_digit (n : N) : ascii :=
  if (n <? 10)%N then ascii_of_N (48 + n) else ascii_of_N (55 + n).

(** [encodeURIComponent(s)], on the UTF-8 bytes of the string: every byte
    that is not an unreserved character becomes [%XX]. *)
Fixpoint encodeURIComponent (s : string) : string :=
  match s with
  | EmptyString => EmptyString
  | String c rest =>
      if is_unreserved c then String c (encodeURIComponent rest)
      else
        String "%"
          (String (hex_digit (N_of_ascii c / 16))
             (String (hex_digit (N_of_ascii c mod 16))
                (encodeURIComponent rest)))
  end.

(** [generateMagicLink()]: [baseURL] is origin plus path of the page. *)
Definition generateMagicLink (baseURL databaseAddress : string) : string :=
  baseURL ++ "?db=" ++ encodeURIComponent databaseAddress.

(** The text before the first occurrence of a character, and the text
    after it when there is one. *)
Fixpoint cut_at (sep : ascii) (s : string) : string * option string :=
  match s with
  | EmptyString => (EmptyString, None)
  | String c rest =>
      if Ascii.eqb c sep then (EmptyString, Some rest)
      else let '(before, after) := cut_at sep rest in (String c before, after)
  end.

(** [window.location.search] of a URL: from the first [?] on, without the
    fragment; empty when there is no query. *)
Definition location_search (url : string) : string :=
  match snd (cut_at "?" (fst (cut_at "#" url))) with
  | Some query => if truthy query then String "?" query else EmptyString
  | None => EmptyString
  end.

(** [s.split(sep)] for a one-character separator. *)
Fixpoint split_on (sep : ascii) (s : string) : list string :=
  match s with
  | EmptyString => [EmptyString]
  | String c rest =>
      match split_on sep rest with
      | [] => [String c EmptyString]
      | piece :: pieces =>
          if Ascii.eqb c sep then EmptyString :: piece :: pieces
          else String c piece :: pieces
      end
  end.

(** Percent-decoding of the URL standard: [%XX] with two hexadecimal
    digits is one byte, everything else stands for itself. *)
Fixpoint percent_decode (s : string) : string :=
  match s with
  | EmptyString => EmptyString
  | String c tail =>
      match tail with
      | String h (String l rest) =>
          match Ascii.eqb c "%", hex_value h, hex_value l with
          | true, Some a, Some b =>
              String (ascii_of_N (16 * a + b)) (percent_decode rest)
          | _, _, _ => String c (percent_decode tail)
          end
      | _ => String c (percent_decode tail)
      end
  end.

(** In a query string a plus sign is a space. *)
Fixpoint plus_to_space (s : string) : string :=
  match s with
  | EmptyString => EmptyString
  | String c rest =>
      String (if Ascii.eqb c "+" then " "%char else c) (plus_to_space rest)
  end.

Definition form_decode (s : string) : string := percent_decode (plus_to_space s).

(** [new URLSearchParams(search)]: the leading [?] is dropped, the rest is
    cut at every [&], empty pieces are skipped, each piece is cut at its
    first [=] and both sides are decoded. *)
Definition URLSearchParams (search : string) : list (string * string) :=
  let query :=
    match search with
    | String "?" rest => rest
    | _ => search
    end in
  map (fun piece =>
         let '(name, v) := cut_at "=" piece in
         (form_decode name, form_decode (or_default v EmptyString)))
      (filter truthy (split_on "&" query)).

(** [params.get(name)]: the first value under that name, or [null]. *)
Fixpoint params_get (name : string) (params : list (string * string)) : option string :=
  match params with
  | [] => None
  | (n, v) :: rest => if String.eqb n name then Some v else params_get name rest
  end.

(* ===================================================================== *)
(** * Vocabulary of the statements                                        *)
(* ===================================================================== *)

(** A number is finite and equal, as a rational, to [q]. *)
Definition is_fin (x : number) (q : Q) : Prop :=
  match x with
  | Fin a => a == q
  | _ => False
  end.

(** The operation delivers its value strictly before the deadline; the
    opposite is: it rejects, it is too slow, or it never settles. *)
Definition resolves_before {A} (p : Settled A) (deadline : Z) : bool :=
  match p with
  | Resolves ms _ => (ms <? deadline)%Z
  | _ => false
  end.

(** The world after further external operations were started. *)
Definition logged (w : World) (es : list Event) : World :=
  {| now := now w; random_suffix := random_suffix w;
     indexedDB_ok := indexedDB_ok w; cache_store := cache_store w;
     stored_address := stored_address w; url_db := url_db w;
     url_peers := url_peers w; trace := (trace w ++ es)%list |}.

(** The world some milliseconds later. *)
Definition later (w : World) (ms : Z) : World :=
  {| now := (now w + ms)%Z; random_suffix := random_suffix w;
     indexedDB_ok := indexedDB_ok w; cache_store := cache_store w;
     stored_address := stored_address w; url_db := url_db w;
     url_peers := url_peers w; trace := trace w |}.

(** The store-open attempts on a trace, oldest first. *)
Definition opens (t : list Event) : list (string * bool) :=
  flat_map (fun e => match e with EvOpen a c => [(a, c)] | _ => [] end) t.

(** Nothing of the join state changed between two worlds: the same
    remembered address, the same link, the same open attempts. *)
Definition same_browser (w w' : World) : Prop :=
  stored_address w' = stored_address w
  /\ url_db w' = url_db w
  /\ url_peers w' = url_peers w
  /\ opens (trace w') = opens (trace w).

(** The [peers] parameter of the link, if there is one, is well-formed
    percent-encoding: it can be decoded. *)
Definition peers_well_formed (w : World) : Prop :=
  match url_peers w with
  | Some peersParam => exists decoded, decodeURIComponent peersParam = Ok decoded
  | None => True
  end.

(** The link names a peer: a comma-separated piece of its decoded [peers]
    parameter is not blank. *)
Definition names_a_peer (w : World) : Prop :=
  exists peersParam decoded hint,
    url_peers w = Some peersParam
    /\ decodeURIComponent peersParam = Ok decoded
    /\ In hint (split_comma decoded)
    /\ trim hint <> "".

(** The squared Euclidean norm of a vector. *)
Definition norm_sq (v : list Q) : Q :=
  fold_right (fun x acc => x * x + acc) 0 v.

(** Newest first: non-increasing [createdAt]. *)
Definition newest_first (l : list Intention) : Prop :=
  StronglySorted (fun a b => (createdAt b <= createdAt a)%Z) l.


(** Every embedding that is present has the length of the query vector,
    the invariant of the data model. *)
Definition embeddings_fit (n : nat) (intentions : list Intention) : Prop :=
  Forall (fun i => match embedding i with
                   | Some e => List.length e = n
                   | None => True
                   end) intentions.

(* ===================================================================== *)
(** * Sample inputs                                                       *)
(* ===================================================================== *)

(** A [Math] to run examples with: polynomial stand-ins for the
    trigonometric functions and a truncated decimal square root. *)
Definition sample_math : MathLib :=
  {| Math_PI := 355 # 113;
     sqrt_fin := fun q =>
       Z.sqrt (Qnum q * Zpos (Qden q) * 1000000) # (Qden q * 1000);
     sin_fin := fun x => x - x * x * x / 6;
     cos_fin := fun x => 1 - x * x / 2;
     atan2_fin := fun y x => y / (x + y) |}.

(** An embedding capability to run examples with: two components derived
    from the length of the text. *)
Definition sample_model : EmbeddingModel :=
  {| generateEmbedding := fun text =>
       [inject_Z (Z.of_nat (String.length text)); 1] |}.

Definition sample_world : World :=
  {| now := 1700000000000; random_suffix := "k3x9q2m1z";
     indexedDB_ok := true; cache_store := [];
     stored_address := None; url_db := None; url_peers := None;
     trace := [] |}.

(** The sample world with a given cache content and a given remembered
    address and invitation link. *)
Definition sample_world_with (cache : list Intention)
    (stored db peers : option string) : World :=
  {| now := 1700000000000; random_suffix := "k3x9q2m1z";
     indexedDB_ok := true; cache_store := cache;
     stored_address := stored; url_db := db; url_peers := peers;
     trace := [] |}.

Definition sample_intention (id : string) (t d : string) (at_ : Z)
    (e : option (list Q)) (g : option Geo) : Intention :=
  {| _id := id; intentionId := id; title := t; description := d;
     location := ""; geo := g; status := active; createdBy := "did:key:alice";
     createdAt := at_; updatedAt := at_; tags := []; category := "general";
     completedAt := None; archivedAt := None;
     embedding := e; embeddedAt := option_map (fun _ => at_) e |}.

(** A store whose every operation settles as given. *)
Definition sample_database (reads : Settled (list Entry))
    (found : list Intention) (writes : Settled unit) : Database :=
  {| db_name := "syncengine-global-intentions";
     address := "/orbitdb/zdpuAkstore";
     identity_id := "did:key:alice";
     all := reads;
     get := fun _ => Resolves 5 found;
     put := fun _ => writes;
     del := fun _ => Resolves 5 tt;
     _isNewDatabase := false;
     _isJoinedViaInvitation := false |}.

(** An OrbitDB whose every open settles as given, and a libp2p whose
    every dial settles as given. *)
Definition sample_orbitdb (opening : Settled Database) : OrbitDB :=
  {| open := fun _ _ => opening |}.



(** Three entries, stored oldest first. *)
Definition sample_entries : list Entry :=
  [ {| entry_hash := "zdpu1";
       value := sample_intention "int_1_a" "first" "" 1 None None |};
    {| entry_hash := "zdpu2";
       value := sample_intention "int_2_b" "second" "" 2 None None |};
    {| entry_hash := "zdpu3";
       value := sample_intention "int_3_c" "third" "" 3 None None |} ].

Definition sample_data (t : string) : IntentionData :=
  {| data_title := Some t; data_description := Some "two strong people, one van";
     data_location := None; data_geo := None; data_tags := None;
     data_category := None |}.

(** Three items for a search: one near the caller, one without
    embedding, one without coordinates. *)
Definition sample_items : list Intention :=
  [ sample_intention "int_1_a" "Help moving" "" 1 (Some [3; 1]) (Some (1, 1));
    sample_intention "int_2_b" "Garden party" "" 2 None (Some (2, 2));
    sample_intention "int_3_c" "Moving boxes" "" 3 (Some [4; 1]) None ].

Definition sample_options : SearchOptions :=
  {| userLocation := Some (1, 1); semanticWeight := None; geoWeight := None;
     minScore := None; maxResults := None |}.

(** The patch [{ description: d }]. *)
Definition patch_description (d : string) : Updates :=
  {| upd__id := None; upd_intentionId := None; upd_title := None;
     upd_description := Some d; upd_location := None; upd_geo := None;
     upd_status := None; upd_createdBy := None; upd_createdAt := None;
     upd_updatedAt := None; upd_tags := None; upd_category := None;
     upd_completedAt := None; upd_archivedAt := None;
     upd_embedding := None; upd_embeddedAt := None |}.

(** A string of [n] copies of the letter a. *)
Fixpoint letters (n : nat) : string :=
  match n with
  | O => EmptyString
  | S m => String "a" (letters m)
  end.

(* ===================================================================== *)
(** * Further vocabulary and sample inputs                                *)
(* ===================================================================== *)

(** The sample world in a browser whose IndexedDB cannot be opened. *)
Definition sample_world_without_cache : World :=
  {| now := 1700000000000; random_suffix := "k3x9q2m1z";
     indexedDB_ok := false; cache_store := [];
     stored_address := None; url_db := None; url_peers := None;
     trace := [] |}.

(** Whether a dial attempt settles, one way or the other, strictly before
    a deadline, and whether it connects. *)
Definition dial_settles_before (libp2p : Libp2p) (deadline : Z) (multiaddr : string) : bool :=
  match dial libp2p multiaddr with
  | Resolves ms _ | Rejects ms _ => (ms <? deadline)%Z
  | Never => false
  end.

Definition dial_connects (libp2p : Libp2p) (multiaddr : string) : bool :=
  match dial libp2p multiaddr with
  | Resolves _ _ => true
  | _ => false
  end.

(** An OrbitDB that answers an opening of an existing store and the
    creation of a store each in its own way. *)
Definition selective_orbitdb (reopening creating : Settled Database) : OrbitDB :=
  {| open := fun _ create => if create then creating else reopening |}.

(** What [batchEmbedIntentions] makes of one intention at time [stamp]:
    an intention with an embedding stays, another one gets the embedding
    of its text. *)
Definition filled {E : EmbeddingModel} (stamp : Z) (i : Intention) : Intention :=
  match embedding i with
  | Some _ => i
  | None => with_embedding i (generateEmbedding (textToEmbed i)) stamp
  end.

Definition lacks_embedding (i : Intention) : bool :=
  match embedding i with Some _ => false | None => true end.

(** The world after further events, told by its fields. *)
Definition extends_trace (w w' : World) (es : list Event) : Prop :=
  now w' = now w /\ random_suffix w' = random_suffix w
  /\ indexedDB_ok w' = indexedDB_ok w /\ cache_store w' = cache_store w
  /\ stored_address w' = stored_address w /\ url_db w' = url_db w
  /\ url_peers w' = url_peers w /\ trace w' = (trace w ++ es)%list.

(** Two numbers are the same value. *)
Definition same_number (x y : number) : Prop :=
  match x, y with
  | Fin a, Fin b => a == b
  | PosInf, PosInf | NegInf, NegInf | NaN, NaN => True
  | _, _ => False
  end.

(** A sample intention with tags. *)
Definition sample_tagged (id : string) (ts : list string) : Intention :=
  {| _id := id; intentionId := id; title := "Help moving"; description := "";
     location := ""; geo := None; status := active; createdBy := "did:key:alice";
     createdAt := 1; updatedAt := 1; tags := ts; category := "request";
     completedAt := None; archivedAt := None;
     embedding := None; embeddedAt := None |}.

(** Whether an intention has an embedding. *)
Definition has_embedding (i : Intention) : bool :=
  match embedding i with Some _ => true | None => false end.

(** Whether a character occurs in a string. *)
Fixpoint contains_char (c : ascii) (s : string) : bool :=
  match s with
  | EmptyString => false
  | String x rest => Ascii.eqb x c || contains_char c rest
  end.

(** The characters an encoded component consists of: the unreserved ones
    and the percent sign. *)
Definition is_encoded_char (c : ascii) : bool :=
  is_unreserved c || Ascii.eqb c "%".

Fixpoint all_chars (p : ascii -> bool) (s : string) : bool :=
  match s with
  | EmptyString => true
  | String x rest => p x && all_chars p rest
  end.


(* ===================================================================== *)
(** * Properties of the idealised numbers                                 *)
(* ===================================================================== *)

Lemma nge_Fin (a b : Q) : nge (Fin a) (Fin b) = true <-> b <= a.
Proof. simpl. apply Qle_bool_iff. Qed.

Lemma nge_refl (x : number) : x <> NaN -> nge x x = true.
Proof.
  destruct x; simpl; try congruence; intros _.
  apply Qle_bool_iff. apply Qle_refl.
Qed.


(** Division by the default maximum distance is multiplication by its
    inverse, a form linear arithmetic accepts. *)
Ltac by_hundredths :=
  repeat match goal with
         | |- context [?d / 100] =>
             change (d / 100) with (d * (1 # 100))
         | H : context [?d / 100] |- _ =>
             change (d / 100) with (d * (1 # 100)) in H
         end.

(** The score of a finite distance under the default maximum, spelled
    out. *)
Lemma normalizeGeoScore_Fin (d : Q) :
  normalizeGeoScore (Fin d) None =
  Fin (if Qle_bool 0 (1 + - (d / 100)) then 1 + - (d / 100) else 0).
Proof. reflexivity. Qed.

Section GeoScore.
Context {M : MathLib}.

(** C7. With the default maximum distance of 100 km the geo score of a
    finite distance [d] is [max(0, 1 - d/100)]; it is 1 at distance 0, it
    is 0 from 100 km on and for the infinite distance, which is what
    [geoDistance] returns as soon as one of the two points is absent; and
    it never increases when the distance grows. *)
Theorem geoScore_default :
  (forall d : Q, is_fin (normalizeGeoScore (Fin d) None) (Qmax 0 (1 - d / 100)))
  /\ is_fin (normalizeGeoScore (Fin 0) None) 1
  /\ (forall d : Q, 100 <= d -> is_fin (normalizeGeoScore (Fin d) None) 0)
  /\ normalizeGeoScore PosInf None = Fin 0
  /\ (forall g : option Geo,
        geoDistance None g = PosInf /\ geoDistance g None = PosInf)
  /\ (forall d1 d2 : number,
        nge d2 d1 = true ->
        nge (normalizeGeoScore d1 None) (normalizeGeoScore d2 None) = true).
Proof.
  assert (shape : forall d : Q,
             is_fin (normalizeGeoScore (Fin d) None) (Qmax 0 (1 - d / 100))).
  { intros d. rewrite normalizeGeoScore_Fin. cbn [is_fin].
    destruct (Qle_bool 0 (1 + - (d / 100))) eqn:pos.
    - apply Qle_bool_iff in pos. rewrite Q.max_r; [reflexivity | exact pos].
    - assert (neg : ~ 0 <= 1 + - (d / 100)).
      { intros le. apply Qle_bool_iff in le. congruence. }
      rewrite Q.max_l; [reflexivity |].
      apply Qnot_le_lt in neg. apply Qlt_le_weak. exact neg. }
  split; [exact shape |].
  split; [reflexivity |].
  split.
  { intros d far. rewrite normalizeGeoScore_Fin. cbn [is_fin].
    destruct (Qle_bool 0 (1 + - (d / 100))) eqn:pos; [| reflexivity].
    apply Qle_bool_iff in pos. by_hundredths. lra. }
  split; [reflexivity |].
  split.
  { intros g. split; [reflexivity |]. destruct g as [[lat lon] |]; reflexivity. }
  intros d1 d2 le.
  destruct d1 as [a | | |], d2 as [b | | |]; simpl in le; try discriminate;
    try reflexivity.
  - rewrite !normalizeGeoScore_Fin. apply nge_Fin.
    apply Qle_bool_iff in le.
    destruct (Qle_bool 0 (1 + - (b / 100))) eqn:pb;
      destruct (Qle_bool 0 (1 + - (a / 100))) eqn:pa;
      try apply Qle_bool_iff in pb; try apply Qle_bool_iff in pa;
      by_hundredths; try lra.
    assert (~ 0 <= 1 + - (a * (1 # 100)))
      by (rewrite <- Qle_bool_iff; congruence).
    lra.
  - rewrite normalizeGeoScore_Fin.
    change (normalizeGeoScore PosInf None) with (Fin 0). apply nge_Fin.
    destruct (Qle_bool 0 (1 + - (a / 100))) eqn:pa; [| lra].
    apply Qle_bool_iff in pa. exact pa.
Qed.
End GeoScore.

(** A run of C7: 20 km scores at least as high as 70 km, and 120 km
    scores zero. *)
Lemma geoScore_default_witness :
  nge (normalizeGeoScore (Fin 20) None) (normalizeGeoScore (Fin 70) None) = true
  /\ is_fin (normalizeGeoScore (Fin 120) None) 0.
Proof.
  destruct (@geoScore_default sample_math)
    as (_ & _ & far & _ & _ & monotone).
  split.
  - apply monotone. reflexivity.
  - apply far. unfold Qle. simpl. lia.
Defined.

(* ===================================================================== *)
(** * Card sizing                                                         *)
(* ===================================================================== *)

(** C9. For a combined score [s] between 0 and 1 and any base width, the
    scale factor is [0.5 + s * 0.5] and lies between 0.5 and 1; the card
    width is the base width times the scale factor, rounded, and the card
    height is that width divided by 1.618, rounded; both are integers.
    An omitted base width is 320. *)
Theorem cardDimensions_golden (s bw : Q) :
  0 <= s <= 1 ->
  let card := calculateCardDimensions (Fin s) (Some (Fin bw)) in
  exists k : Q,
    scaleFactor (Fin s) = Fin k
    /\ k == (1 # 2) + s * (1 # 2)
    /\ (1 # 2) <= k <= 1
    /\ width card = Math_round (nmul (Fin bw) (Fin k))
    /\ height card = Math_round (ndiv (width card) (Fin (1618 # 1000)))
    /\ (exists w h : Z,
          width card = Fin (inject_Z w)
          /\ w = Qfloor (bw * k + (1 # 2))
          /\ height card = Fin (inject_Z h)
          /\ h = Qfloor (inject_Z w / (1618 # 1000) + (1 # 2)))
    /\ calculateCardDimensions (Fin s) None =
       calculateCardDimensions (Fin s) (Some (Fin 320)).
Proof.
  intros [lo hi] card.
  exists ((1 # 2) + s * (1 # 2)).
  split; [reflexivity |].
  split; [reflexivity |].
  split; [split; lra |].
  split; [reflexivity |].
  split; [reflexivity |].
  split; [| reflexivity].
  exists (Qfloor (bw * ((1 # 2) + s * (1 # 2)) + (1 # 2))).
  exists (Qfloor (inject_Z (Qfloor (bw * ((1 # 2) + s * (1 # 2)) + (1 # 2)))
                  / (1618 # 1000) + (1 # 2))).
  repeat split; reflexivity.
Qed.

(** A run of C9: a score of 1/2 on the default base width gives a card of
    240 by 148. *)
Lemma cardDimensions_golden_witness :
  calculateCardDimensions (Fin (1 # 2)) None =
  {| width := Fin 240; height := Fin 148 |}.
Proof.
  assert (range : 0 <= 1 # 2 <= 1) by (split; unfold Qle; simpl; lia).
  destruct (cardDimensions_golden (1 # 2) 320 range)
    as (k & _ & _ & _ & _ & _ & _ & omitted).
  rewrite omitted. vm_compute. reflexivity.
Defined.
(* ===================================================================== *)
(** * Sorting with a comparator                                           *)
(* ===================================================================== *)

Section JsSortFacts.
Context {A : Type} (cmp : A -> A -> number).

Lemma sort_insert_perm (x : A) (l : list A) :
  Permutation (x :: l) (sort_insert cmp x l).
Proof.
  induction l as [| y rest IH]; simpl.
  - apply Permutation_refl.
  - destruct (sorts_after cmp x y).
    + eapply perm_trans; [apply perm_swap |]. apply perm_skip. exact IH.
    + apply Permutation_refl.
Qed.

Lemma js_sort_perm (l : list A) : Permutation l (js_sort cmp l).
Proof.
  induction l as [| x rest IH]; simpl.
  - apply perm_nil.
  - eapply perm_trans; [| apply sort_insert_perm]. apply perm_skip. exact IH.
Qed.

(** The comparator agrees with an order [le] on the elements of [dom]:
    it never asks to move an element behind one that [le] puts after it. *)
Context (dom : A -> Prop) (le : A -> A -> Prop).
Hypothesis stays : forall a b, dom a -> dom b -> sorts_after cmp a b = false -> le a b.
Hypothesis moves : forall a b, dom a -> dom b -> sorts_after cmp a b = true -> le b a.
Hypothesis le_trans : forall a b c, le a b -> le b c -> le a c.

Lemma sort_insert_sorted (x : A) (l : list A) :
  dom x -> Forall dom l -> StronglySorted le l ->
  StronglySorted le (sort_insert cmp x l).
Proof.
  intros dx dl sorted.
  induction sorted as [| y rest sorted IH above]; simpl.
  - constructor; constructor.
  - inversion dl as [| ? ? dy drest]; subst.
    destruct (sorts_after cmp x y) eqn:after.
    + constructor; [apply IH; assumption |].
      apply (Permutation_Forall (sort_insert_perm x rest)).
      constructor; [apply moves; assumption | exact above].
    + assert (xy : le x y) by (apply stays; assumption).
      constructor; [constructor; assumption |].
      constructor; [exact xy |].
      eapply Forall_impl; [| exact above].
      intros z yz. eapply le_trans; eassumption.
Qed.

Lemma js_sort_sorted (l : list A) :
  Forall dom l -> StronglySorted le (js_sort cmp l).
Proof.
  induction l as [| x rest IH]; intros dl; simpl.
  - constructor.
  - inversion dl as [| ? ? dx drest]; subst.
    apply sort_insert_sorted; [exact dx | | apply IH; exact drest].
    apply (Permutation_Forall (js_sort_perm rest)). exact drest.
Qed.
End JsSortFacts.

Lemma createdAt_sorted (l : list Intention) :
  newest_first (js_sort by_createdAt_desc l).
Proof.
  apply (js_sort_sorted by_createdAt_desc (fun _ => True)).
  - intros a b _ _. unfold sorts_after, by_createdAt_desc. simpl.
    destruct (createdAt b - createdAt a)%Z eqn:diff; try discriminate; lia.
  - intros a b _ _. unfold sorts_after, by_createdAt_desc. simpl.
    destruct (createdAt b - createdAt a)%Z eqn:diff; try discriminate; lia.
  - intros a b c. lia.
  - apply Forall_forall. trivial.
Qed.

(* ===================================================================== *)
(** * Reading: the cache and the store                                    *)
(* ===================================================================== *)

(** Unfold the plumbing of [Async] and compute. *)
Ltac run_async :=
  cbv [bind try_catch ret throw get_world log_event log_events advance
       Date_now openCacheDB set_cache_store sleep
       localStorage_getItem localStorage_setItem localStorage_removeItem
       set_stored_address];
  simpl.

Lemma bind_Returns {A B} (m : Async A) (k : A -> Async B) (w w' : World) (a : A) :
  m w = (Returns a, w') -> bind m k w = k a w'.
Proof. intros run. unfold bind. rewrite run. reflexivity. Qed.

Lemma bind_Throws {A B} (m : Async A) (k : A -> Async B) (w w' : World) (e : string) :
  m w = (Throws e, w') -> bind m k w = (Throws e, w').
Proof. intros run. unfold bind. rewrite run. reflexivity. Qed.

Lemma bind_Hangs {A B} (m : Async A) (k : A -> Async B) (w w' : World) :
  m w = (Hangs, w') -> bind m k w = (Hangs, w').
Proof. intros run. unfold bind. rewrite run. reflexivity. Qed.

Lemma try_catch_Returns {A} (body : Async A) (h : string -> Async A) (w w' : World) (a : A) :
  body w = (Returns a, w') -> try_catch body h w = (Returns a, w').
Proof. intros run. unfold try_catch. rewrite run. reflexivity. Qed.

Lemma try_catch_Throws {A} (body : Async A) (h : string -> Async A) (w w' : World) (e : string) :
  body w = (Throws e, w') -> try_catch body h w = h e w'.
Proof. intros run. unfold try_catch. rewrite run. reflexivity. Qed.

Lemma log_event_run (e : Event) (w : World) :
  log_event e w = (Returns tt, logged w [e]).
Proof. reflexivity. Qed.

Lemma loadIntentionsFromCache_run (w : World) :
  loadIntentionsFromCache w =
  (Returns (if indexedDB_ok w
            then js_sort by_createdAt_desc (cache_store w) else []),
   logged w [EvCacheRead]).
Proof.
  unfold loadIntentionsFromCache, logged. run_async.
  destruct (indexedDB_ok w) eqn:ok; simpl; rewrite <- ?ok; reflexivity.
Qed.

Lemma saveIntentionsToCache_run (intentions : list Intention) (w : World) :
  exists w',
    saveIntentionsToCache intentions w = (Returns tt, w')
    /\ cache_store w' =
       (if indexedDB_ok w then idb_replace_all intentions else cache_store w)
    /\ trace w' = (trace w ++ [EvCacheWrite intentions])%list
    /\ indexedDB_ok w' = indexedDB_ok w
    /\ stored_address w' = stored_address w
    /\ now w' = now w.
Proof.
  unfold saveIntentionsToCache. run_async.
  destruct (indexedDB_ok w) eqn:ok; simpl; eexists; split; try reflexivity;
    simpl; rewrite ?ok; repeat split; reflexivity.
Qed.

Lemma race_timeout_fails {A} (p : Settled A) (deadline : Z) (message : string) (w : World) :
  resolves_before p deadline = false ->
  exists e ms, race_timeout p deadline message w = (Throws e, later w ms).
Proof.
  intros slow. destruct p as [ms v | ms e |]; simpl in *.
  - rewrite slow. eexists _, _. reflexivity.
  - destruct (ms <? deadline)%Z; eexists _, _; reflexivity.
  - eexists _, _. reflexivity.
Qed.

Lemma race_timeout_wins {A} (p : Settled A) (deadline : Z) (message : string) (w : World) :
  resolves_before p deadline = true ->
  exists v ms, p = Resolves ms v /\ (ms < deadline)%Z
               /\ race_timeout p deadline message w = (Returns v, later w ms).
Proof.
  intros fast. destruct p as [ms v | ms e |]; simpl in *; try discriminate.
  rewrite fast. exists v, ms. repeat split. apply Z.ltb_lt. exact fast.
Qed.

Lemma loadIntentions_failure_run (d : Database) (w : World) :
  resolves_before (all d) 30000 = false ->
  exists ms,
    loadIntentions (Some d) false w =
    (Returns [], later (logged w [EvStoreAll]) ms).
Proof.
  intros slow.
  destruct (race_timeout_fails (all d) 30000
              "Database.all() timeout after 30 seconds"
              (logged w [EvStoreAll]) slow) as (e & ms & run).
  exists ms. unfold loadIntentions.
  erewrite try_catch_Throws; [reflexivity |].
  erewrite bind_Returns; [| apply log_event_run].
  erewrite bind_Throws; [reflexivity | exact run].
Qed.

(** C1, as the code has it.  On a session that was not just created, when
    the store read rejects, exceeds its 30 s deadline or never settles,
    [loadIntentions] returns the empty list: the failure is not
    propagated, and the cache is neither read nor written. *)
Theorem loadIntentions_read_failure (d : Database) (w : World) :
  resolves_before (all d) 30000 = false ->
  exists w',
    loadIntentions (Some d) false w = (Returns [], w')
    /\ cache_store w' = cache_store w
    /\ trace w' = (trace w ++ [EvStoreAll])%list.
Proof.
  intros slow.
  destruct (loadIntentions_failure_run d w slow) as (ms & run).
  exists (later (logged w [EvStoreAll]) ms).
  split; [exact run |]. split; reflexivity.
Qed.

(** A run of the amended C1: the peer is offline, the read rejects after
    40 ms, the result is the empty list. *)
Lemma loadIntentions_read_failure_witness :
  exists w',
    loadIntentions
      (Some (sample_database (Rejects 40 "offline") [] Never)) false
      (sample_world_with
         [sample_intention "int_1_a" "Help moving" "" 1 None None]
         None None None)
    = (Returns [], w')
    /\ cache_store w' =
       [sample_intention "int_1_a" "Help moving" "" 1 None None].
Proof.
  destruct (loadIntentions_read_failure
              (sample_database (Rejects 40 "offline") [] Never)
              (sample_world_with
                 [sample_intention "int_1_a" "Help moving" "" 1 None None]
                 None None None))
    as (w' & run & cache & _).
  - reflexivity.
  - exists w'. split; [exact run | exact cache].
Defined.

(** C1 as stated fails: with one record in the cache and a store read
    that rejects, [loadIntentions] returns the empty list, not the cache
    snapshot. *)
Lemma loadIntentions_returns_empty_not_cache :
  let cached := sample_intention "int_1_a" "Help moving" "" 1 None None in
  let w := sample_world_with [cached] None None None in
  let d := sample_database (Rejects 40 "offline") [] Never in
  resolves_before (all d) 30000 = false
  /\ fst (loadIntentionsFromCache w) = Returns [cached]
  /\ fst (loadIntentions (Some d) false w) = Returns []
  /\ fst (loadIntentions (Some d) false w) <> fst (loadIntentionsFromCache w).
Proof.
  repeat split; try reflexivity.
  vm_compute. discriminate.
Qed.

Lemma loadIntentions_read_success (d : Database) (w : World) (ms : Z) (entries : list Entry) :
  all d = Resolves ms entries -> (ms < 30000)%Z ->
  exists w',
    loadIntentions (Some d) false w =
    (Returns (js_sort by_createdAt_desc (map value entries)), w')
    /\ cache_store w' =
       (if indexedDB_ok w
        then idb_replace_all (js_sort by_createdAt_desc (map value entries))
        else cache_store w).
Proof.
  intros reads fast.
  destruct (saveIntentionsToCache_run
              (js_sort by_createdAt_desc (map value entries))
              (later (logged w [EvStoreAll]) ms))
    as (w' & save & cache & _).
  exists w'. split; [| exact cache].
  unfold loadIntentions.
  erewrite try_catch_Returns; [reflexivity |].
  erewrite bind_Returns; [| apply log_event_run].
  erewrite bind_Returns.
  2:{ rewrite reads. simpl. apply Z.ltb_lt in fast. rewrite fast. reflexivity. }
  erewrite bind_Returns; [reflexivity | exact save].
Qed.

(** C10. Whatever the store or the cache holds, in whatever order,
    [loadIntentions] and [loadIntentionsFromCache] return their records
    newest first, in non-increasing [createdAt] order: the store read
    returns, when it succeeds, a rearrangement of the stored values, and
    the cache read, when the cache opens, a rearrangement of the cached
    records. *)
Theorem reads_newest_first (database : option Database) (isNewDatabase : bool) (w : World) :
  (exists l,
      fst (loadIntentions database isNewDatabase w) = Returns l
      /\ newest_first l
      /\ (forall d ms entries,
            database = Some d -> isNewDatabase = false ->
            all d = Resolves ms entries -> (ms < 30000)%Z ->
            Permutation (map value entries) l))
  /\ (exists l,
        fst (loadIntentionsFromCache w) = Returns l
        /\ newest_first l
        /\ (indexedDB_ok w = true -> Permutation (cache_store w) l)).
Proof.
  split.
  - destruct database as [d |].
    2:{ exists []. repeat split; [constructor | discriminate]. }
    destruct isNewDatabase.
    { exists []. repeat split; [constructor | discriminate]. }
    destruct (resolves_before (all d) 30000) eqn:fast.
    + destruct (all d) as [ms entries | |] eqn:reads; try discriminate.
      simpl in fast. apply Z.ltb_lt in fast.
      destruct (loadIntentions_read_success d w ms entries reads fast)
        as (w' & run & _).
      exists (js_sort by_createdAt_desc (map value entries)).
      rewrite run. split; [reflexivity |]. split; [apply createdAt_sorted |].
      intros d' ms' entries' same _ reads' _.
      injection same as <-. rewrite reads in reads'.
      injection reads' as <- <-. apply js_sort_perm.
    + destruct (loadIntentions_failure_run d w fast) as (pause & run).
      exists []. rewrite run. split; [reflexivity |]. split; [constructor |].
      intros d' ms' entries' same _ reads' quick.
      injection same as <-. rewrite reads' in fast. simpl in fast.
      apply Z.ltb_lt in quick. congruence.
  - rewrite loadIntentionsFromCache_run. simpl.
    destruct (indexedDB_ok w).
    + eexists. split; [reflexivity |]. split; [apply createdAt_sorted |].
      intros _. apply js_sort_perm.
    + exists []. split; [reflexivity |]. split; [constructor | discriminate].
Qed.

(** A run of C10: three entries stored oldest first are read within
    120 ms and come back newest first. *)
Lemma reads_newest_first_witness :
  exists l,
    fst (loadIntentions
           (Some (sample_database (Resolves 120 sample_entries) [] Never))
           false sample_world) = Returns l
    /\ newest_first l
    /\ Permutation (map value sample_entries) l.
Proof.
  destruct (reads_newest_first
              (Some (sample_database (Resolves 120 sample_entries) [] Never))
              false sample_world)
    as ((l & run & sorted & rearranged) & _).
  exists l. split; [exact run |]. split; [exact sorted |].
  apply (rearranged _ 120%Z sample_entries eq_refl eq_refl eq_refl).
  reflexivity.
Defined.

(* ===================================================================== *)
(** * Creating an intention                                               *)
(* ===================================================================== *)

Lemma trim_empty : trim "" = "".
Proof. reflexivity. Qed.

Lemma truthy_false (s : string) : truthy s = false <-> s = "".
Proof. destruct s; simpl; split; congruence. Qed.

(** The head validation fires exactly when the title is missing or blank. *)
Lemma title_missing_iff (data : IntentionData) :
  title_missing data = true <->
  (data_title data = None \/ exists t, data_title data = Some t /\ trim t = "").
Proof.
  unfold title_missing. destruct (data_title data) as [t |].
  - split.
    + intros blank. right. exists t. split; [reflexivity |].
      apply orb_true_iff in blank. destruct blank as [none | none];
        apply negb_true_iff, truthy_false in none.
      * subst t. reflexivity.
      * exact none.
    + intros [absent | (t' & same & blank)]; [discriminate |].
      injection same as <-. rewrite blank. apply orb_true_r.
  - split; [left; reflexivity | reflexivity].
Qed.

Lemma idb_put_In (x : Intention) (store : list Intention) :
  In x (idb_put x store).
Proof.
  induction store as [| y rest IH]; simpl.
  - left. reflexivity.
  - destruct (String.compare (intentionId x) (intentionId y)).
    + left. reflexivity.
    + left. reflexivity.
    + right. exact IH.
Qed.

Lemma idb_replace_all_last (l : list Intention) (x : Intention) :
  In x (idb_replace_all (l ++ [x])).
Proof.
  unfold idb_replace_all. rewrite fold_left_app. simpl. apply idb_put_In.
Qed.

Lemma idb_put_In_inv (x y : Intention) (store : list Intention) :
  In y (idb_put x store) -> y = x \/ In y store.
Proof.
  induction store as [| z rest IH]; simpl.
  - intros [same | []]. left. symmetry. exact same.
  - destruct (String.compare (intentionId x) (intentionId z)); simpl.
    + intros [same | there]; [left; symmetry; exact same | right; right; exact there].
    + intros [same | there]; [left; symmetry; exact same | right; exact there].
    + intros [same | there]; [right; left; exact same |].
      destruct (IH there) as [same | further]; [left; exact same | right; right; exact further].
Qed.

Lemma idb_fold_In_inv (l acc : list Intention) (y : Intention) :
  In y (fold_left (fun store x => idb_put x store) l acc) -> In y l \/ In y acc.
Proof.
  revert acc. induction l as [| x rest IH]; intros acc; simpl.
  - right. assumption.
  - intros member. destruct (IH _ member) as [there | there].
    + left. right. exact there.
    + destruct (idb_put_In_inv _ _ _ there) as [-> | old];
        [left; left; reflexivity | right; exact old].
Qed.

(** A key of the store survives every later [put]. *)
Lemma idb_put_key (x : Intention) (store : list Intention) (k : string) :
  In k (map intentionId store) -> In k (map intentionId (idb_put x store)).
Proof.
  induction store as [| z rest IH]; simpl; [contradiction |].
  destruct (String.compare (intentionId x) (intentionId z)) eqn:order; simpl.
  - apply String.compare_eq_iff in order. rewrite order. tauto.
  - tauto.
  - intros [same | there]; [left; exact same | right; apply IH; exact there].
Qed.

Lemma idb_put_own_key (x : Intention) (store : list Intention) :
  In (intentionId x) (map intentionId (idb_put x store)).
Proof. apply in_map, idb_put_In. Qed.

Lemma idb_fold_key (l acc : list Intention) (k : string) :
  In k (map intentionId l) \/ In k (map intentionId acc) ->
  In k (map intentionId (fold_left (fun store x => idb_put x store) l acc)).
Proof.
  revert acc. induction l as [| x rest IH]; intros acc; simpl.
  - intros [[] | there]. exact there.
  - intros [[same | later_on] | there]; apply IH.
    + right. rewrite <- same. apply idb_put_own_key.
    + left. exact later_on.
    + right. apply idb_put_key. exact there.
Qed.

Section Creating.
Context {E : EmbeddingModel}.

(** The record [createIntention] builds before embedding it. *)
Lemma createIntention_run (d : Database) (data : IntentionData) (w : World) :
  title_missing data = false ->
  exists r w',
    createIntention (Some d) data w = (Returns r, w')
    /\ title r = trim (or_default (data_title data) "")
    /\ status r = active
    /\ createdBy r = identity_id d
    /\ createdAt r = now w
    /\ intentionId r = "int_" ++ string_of_Z (now w) ++ "_" ++ random_suffix w
    /\ embedding r = Some (generateEmbedding (textToEmbed r))
    /\ embeddedAt r = Some (now w)
    /\ trace w' =
       (trace w ++
        [EvEmbed (textToEmbed r); EvCacheRead;
         EvCacheWrite
           ((if indexedDB_ok w
             then js_sort by_createdAt_desc (cache_store w) else []) ++ [r]);
         EvStorePut r])%list
    /\ cache_store w' =
       (if indexedDB_ok w
        then idb_replace_all
               (js_sort by_createdAt_desc (cache_store w) ++ [r])
        else cache_store w)
    /\ indexedDB_ok w' = indexedDB_ok w.
Proof.
  intros present. unfold createIntention. rewrite present.
  unfold embedIntention, loadIntentionsFromCache, saveIntentionsToCache.
  run_async.
  destruct (indexedDB_ok w) eqn:ok; simpl;
    destruct (put d _) as [ms [] | ms e |]; simpl;
    try destruct (ms <? 15000)%Z; simpl;
    eexists; eexists; (split; [reflexivity |]); simpl;
    rewrite <- ?app_assoc; simpl; rewrite ?ok; repeat split; reflexivity.
Qed.

(** C3, as the code has it.  A [create] call with a title that is not
    blank returns the fully formed record whatever the store write does,
    in particular when it rejects, exceeds its 15 s deadline or never
    settles: the call does not throw.  The cache write is started before
    the store write, with the cached records, newest first, followed by
    the new record.  When the cache can be opened, the record is in it
    afterwards, no id cached before is lost, nothing but the record is
    added, and a later cache read returns the record.  When the cache
    cannot be opened, the failure is swallowed: nothing is cached and a
    later cache read returns no record. *)
Theorem createIntention_cache_first (d : Database) (data : IntentionData)
    (t : string) (w : World) :
  data_title data = Some t -> trim t <> "" ->
  exists r w',
    createIntention (Some d) data w = (Returns r, w')
    /\ title r = trim t
    /\ status r = active
    /\ createdBy r = identity_id d
    /\ embedding r = Some (generateEmbedding (textToEmbed r))
    /\ trace w' =
       (trace w ++
        [EvEmbed (textToEmbed r); EvCacheRead;
         EvCacheWrite
           ((if indexedDB_ok w
             then js_sort by_createdAt_desc (cache_store w) else []) ++ [r]);
         EvStorePut r])%list
    /\ (indexedDB_ok w = true ->
        In r (cache_store w')
        /\ (forall x, In x (cache_store w) ->
                      In (intentionId x) (map intentionId (cache_store w')))
        /\ (forall x, In x (cache_store w') -> x = r \/ In x (cache_store w))
        /\ exists l, fst (loadIntentionsFromCache w') = Returns l /\ In r l)
    /\ (indexedDB_ok w = false ->
        cache_store w' = cache_store w
        /\ fst (loadIntentionsFromCache w') = Returns []).
Proof.
  intros titled filled.
  assert (present : title_missing data = false).
  { destruct (title_missing data) eqn:missing; [| reflexivity].
    apply title_missing_iff in missing.
    destruct missing as [absent | (t' & same & blank)]; [congruence |].
    rewrite titled in same. injection same as <-. contradiction. }
  destruct (createIntention_run d data w present)
    as (r & w' & run & named & fresh & author & _ & _ & embedded & _
        & events & cache & opens_too).
  exists r, w'. rewrite titled in named.
  repeat (split; [assumption |]).
  split.
  - intros ok. rewrite ok in cache, opens_too.
    assert (kept : In r (cache_store w'))
      by (rewrite cache; apply idb_replace_all_last).
    split; [exact kept |].
    split.
    { intros x member. rewrite cache. unfold idb_replace_all.
      apply idb_fold_key. left. rewrite map_app. apply in_or_app. left.
      apply in_map.
      apply (Permutation_in _ (js_sort_perm by_createdAt_desc (cache_store w))).
      exact member. }
    split.
    { intros x member. rewrite cache in member. unfold idb_replace_all in member.
      destruct (idb_fold_In_inv _ _ _ member) as [listed | []].
      apply in_app_or in listed. destruct listed as [old | [same | []]].
      - right.
        apply (Permutation_in _
                 (Permutation_sym (js_sort_perm by_createdAt_desc (cache_store w)))).
        exact old.
      - left. symmetry. exact same. }
    rewrite loadIntentionsFromCache_run, opens_too. simpl.
    eexists. split; [reflexivity |].
    apply (Permutation_in _ (js_sort_perm _ _)). exact kept.
  - intros closed. rewrite closed in cache, opens_too.
    split; [exact cache |].
    rewrite loadIntentionsFromCache_run, opens_too. reflexivity.
Qed.

(** C4, as the code has it.  A [create] call whose title is missing or
    empty after trimming is rejected before anything else happens: no
    embedding, cache or store operation is started and nothing changes;
    with a database at hand the error is the title validation error.  The
    limits of 200 and 2000 characters are those of the creation form: its
    submit handler shows an error and dispatches nothing when the title or
    the description is longer. *)
Theorem createIntention_validates_title :
  (forall (database : option Database) (data : IntentionData) (w : World),
      (data_title data = None
       \/ exists t, data_title data = Some t /\ trim t = "") ->
      exists m,
        createIntention database data w = (Throws m, w)
        /\ (database <> None -> m = "Intention title is required"))
  /\ (forall f : FormFields,
        (200 < String.length (form_title f)
         \/ 2000 < String.length (form_description f))%nat ->
        exists m, handleSubmit f = Rejected m).
Proof.
  split.
  - intros database data w blank. apply title_missing_iff in blank.
    unfold createIntention. destruct database as [d |].
    + rewrite blank. eexists. split; [reflexivity | reflexivity].
    + eexists. split; [reflexivity | congruence].
  - intros f long. unfold handleSubmit.
    destruct (negb (truthy (trim (form_title f)))); [eexists; reflexivity |].
    destruct (200 <? String.length (form_title f))%nat eqn:title_long;
      [eexists; reflexivity |].
    destruct (2000 <? String.length (form_description f))%nat eqn:text_long;
      [eexists; reflexivity |].
    apply Nat.ltb_ge in title_long. apply Nat.ltb_ge in text_long. lia.
Qed.
End Creating.

(** A run of the amended C3: one record is cached, the store write never
    settles; the call returns the record after the 15 s deadline, the
    record is in the cache and the id cached before is still there. *)
Lemma createIntention_cache_first_witness :
  exists r w',
    @createIntention sample_model
      (Some (sample_database Never [] Never))
      (sample_data " Help moving ")
      (sample_world_with
         [sample_intention "int_1_a" "first" "" 1 None None] None None None)
    = (Returns r, w')
    /\ title r = "Help moving"
    /\ In r (cache_store w')
    /\ In "int_1_a" (map intentionId (cache_store w')).
Proof.
  destruct (@createIntention_cache_first sample_model
              (sample_database Never [] Never)
              (sample_data " Help moving ") " Help moving "
              (sample_world_with
                 [sample_intention "int_1_a" "first" "" 1 None None]
                 None None None))
    as (r & w' & run & named & _ & _ & _ & _ & cached & _).
  - reflexivity.
  - vm_compute. discriminate.
  - destruct (cached eq_refl) as (there & kept & _).
    exists r, w'. split; [exact run |]. split; [exact named |].
    split; [exact there |].
    apply (kept (sample_intention "int_1_a" "first" "" 1 None None)).
    left. reflexivity.
Defined.

(** C3 as stated fails where the cache cannot be opened: the store write
    never settles, the call returns the record after the 15 s deadline,
    and the record is not in the cache: a later cache read returns no
    record. *)
Lemma createIntention_returns_uncached :
  exists r w',
    @createIntention sample_model
      (Some (sample_database Never [] Never))
      (sample_data "Help moving") sample_world_without_cache
    = (Returns r, w')
    /\ title r = "Help moving"
    /\ cache_store w' = []
    /\ fst (loadIntentionsFromCache w') = Returns [].
Proof.
  eexists. eexists. split; [vm_compute; reflexivity |].
  repeat split; reflexivity.
Qed.

(** A run of the amended C4: a title of blanks is refused before any
    external operation, and the form refuses a title of 201 letters. *)
Lemma createIntention_validates_title_witness :
  (exists m,
      @createIntention sample_model
        (Some (sample_database Never [] Never)) (sample_data "   ")
        sample_world = (Throws m, sample_world))
  /\ (exists m,
        handleSubmit
          {| form_title := letters 201; form_description := "";
             form_location := ""; form_category := "general";
             form_tags := "" |} = Rejected m).
Proof.
  destruct (@createIntention_validates_title sample_model)
    as (blank & long).
  split.
  - destruct (blank (Some (sample_database Never [] Never))
                (sample_data "   ") sample_world) as (m & run & _).
    + right. exists "   ". split; reflexivity.
    + exists m. exact run.
  - apply long. left. vm_compute. lia.
Defined.

(** C4 as stated fails: a title of 201 letters and a description of 2001
    letters pass [createIntention], which embeds, caches and writes the
    record. *)
Lemma createIntention_accepts_long_fields :
  let data :=
    {| data_title := Some (letters 201);
       data_description := Some (letters 2001);
       data_location := None; data_geo := None; data_tags := None;
       data_category := None |} in
  String.length (letters 201) = 201%nat
  /\ String.length (letters 2001) = 2001%nat
  /\ exists r w',
       @createIntention sample_model
         (Some (sample_database Never [] (Resolves 80 tt))) data sample_world
       = (Returns r, w')
       /\ title r = letters 201
       /\ description r = letters 2001
       /\ In (EvEmbed (textToEmbed r)) (trace w')
       /\ In (EvStorePut r) (trace w').
Proof.
  split; [reflexivity |]. split; [reflexivity |].
  eexists. eexists. split; [vm_compute; reflexivity |].
  split; [reflexivity |]. split; [reflexivity |].
  split; [left; reflexivity |]. right. right. right. left. reflexivity.
Qed.

(* ===================================================================== *)
(** * Updating an intention                                               *)
(* ===================================================================== *)

Section Updating.
Context {E : EmbeddingModel}.

(** A patch with a non-empty title or description: the merged record is
    embedded anew before it is written back. *)
Lemma updateIntention_regenerates (d : Database) (id : string)
    (updates : Updates) (w : World) (stored : Intention)
    (others : list Intention) (found written : Z) :
  truthy id = true ->
  get d id = Resolves found (stored :: others) ->
  wants_reembedding updates = true ->
  let stamp := (now w + found)%Z in
  let merged := merge_updates stored updates stamp in
  let fresh := with_embedding merged (generateEmbedding (textToEmbed merged)) stamp in
  put d fresh = Resolves written tt ->
  exists w',
    updateIntention (Some d) id updates w = (Returns fresh, w')
    /\ trace w' =
       (trace w ++
        [EvStoreGet id; EvEmbed (textToEmbed merged); EvStorePut fresh])%list.
Proof.
  intros named reads wanted stamp merged fresh writes.
  unfold updateIntention. rewrite named. simpl.
  unfold embedIntention, await. rewrite reads. run_async. rewrite wanted.
  run_async. fold stamp. fold merged. fold fresh. rewrite writes. simpl.
  eexists. split; [reflexivity |]. simpl.
  rewrite <- !app_assoc. reflexivity.
Qed.

(** A patch without title and description: the merged record is written
    back as it is; its embedding fields are the stored ones unless the
    patch itself carries them. *)
Lemma updateIntention_keeps_embedding (d : Database) (id : string)
    (updates : Updates) (w : World) (stored : Intention)
    (others : list Intention) (found written : Z) :
  truthy id = true ->
  get d id = Resolves found (stored :: others) ->
  upd_title updates = None -> upd_description updates = None ->
  let stamp := (now w + found)%Z in
  let merged := merge_updates stored updates stamp in
  put d merged = Resolves written tt ->
  exists w',
    updateIntention (Some d) id updates w = (Returns merged, w')
    /\ updatedAt merged = stamp
    /\ (upd_embedding updates = None -> embedding merged = embedding stored)
    /\ (upd_embeddedAt updates = None -> embeddedAt merged = embeddedAt stored)
    /\ trace w' = (trace w ++ [EvStoreGet id; EvStorePut merged])%list.
Proof.
  intros named reads no_title no_text stamp merged writes.
  unfold updateIntention. rewrite named. simpl.
  unfold await. rewrite reads. run_async.
  unfold wants_reembedding. rewrite no_title, no_text. simpl.
  fold stamp. fold merged. rewrite writes. simpl.
  eexists. split; [reflexivity |]. split; [reflexivity |].
  split; [intros none; unfold merged; simpl; rewrite none; reflexivity |].
  split; [intros none; unfold merged; simpl; rewrite none; reflexivity |].
  simpl. rewrite <- !app_assoc. reflexivity.
Qed.
End Updating.

(** C5 at the patch [{ description: '' }].  The stored record carries the
    embedding of its title and description.  The update empties the
    description, yet no embedding is computed: the returned record keeps
    the stored embedding and [embeddedAt], which no longer belong to its
    text. *)
Lemma updateIntention_empty_description_stale :
  let stored :=
    sample_intention "int_1_a" "Help moving" "two strong people" 1
      (Some [29; 1]) None in
  let d := sample_database Never [stored] (Resolves 80 tt) in
  embedding stored = Some (@generateEmbedding sample_model (textToEmbed stored))
  /\ exists r w',
       @updateIntention sample_model (Some d) "int_1_a"
         (patch_description "") sample_world = (Returns r, w')
       /\ description stored = "two strong people"
       /\ description r = ""
       /\ embedding r = Some [29; 1]
       /\ embeddedAt r = embeddedAt stored
       /\ @generateEmbedding sample_model (textToEmbed r) = [12; 1]
       /\ trace w' = [EvStoreGet "int_1_a"; EvStorePut r].
Proof.
  split; [reflexivity |].
  eexists. eexists. split; [vm_compute; reflexivity |].
  repeat split; reflexivity.
Qed.

(** The comparison: on the patch [{ description: 'a van' }] the same
    update does compute the embedding of the new text. *)
Lemma updateIntention_new_description_fresh :
  let stored :=
    sample_intention "int_1_a" "Help moving" "two strong people" 1
      (Some [29; 1]) None in
  let d := sample_database Never [stored] (Resolves 80 tt) in
  exists r w',
    @updateIntention sample_model (Some d) "int_1_a"
      (patch_description "a van") sample_world = (Returns r, w')
    /\ description r = "a van"
    /\ embedding r = Some (@generateEmbedding sample_model (textToEmbed r))
    /\ embedding r = Some [17; 1].
Proof.
  eexists. eexists. split; [vm_compute; reflexivity |].
  repeat split; reflexivity.
Qed.

(* ===================================================================== *)
(** * Cosine similarity on a vector of norm zero                          *)
(* ===================================================================== *)

Lemma norm_sq_nonneg (v : list Q) : 0 <= norm_sq v.
Proof.
  induction v as [| x rest IH]; simpl.
  - apply Qle_refl.
  - assert (0 <= x * x) by nra. lra.
Qed.

Lemma norm_sq_zero (v : list Q) :
  norm_sq v == 0 -> Forall (fun x => x == 0) v.
Proof.
  induction v as [| x rest IH]; simpl; intros zero.
  - constructor.
  - pose proof (norm_sq_nonneg rest) as tail.
    assert (square : 0 <= x * x) by nra.
    constructor.
    + assert (x * x == 0) by lra. nra.
    + apply IH. lra.
Qed.

(** While the left components are zero, the loop leaves the dot product
    and the left norm where they are. *)
Lemma cosine_sums_left_zero (l : list (Q * Q)) (d na nb : Q) :
  Forall (fun ab => fst ab == 0) l ->
  let '(d', na', _) := fold_left cosine_step l (d, na, nb) in
  d' == d /\ na' == na.
Proof.
  revert d na nb.
  induction l as [| [a b] rest IH]; intros d na nb zeros; simpl.
  - split; reflexivity.
  - inversion zeros as [| ? ? zero others]; subst. simpl in zero.
    specialize (IH (d + a * b) (na + a * a) (nb + b * b) others).
    destruct (fold_left cosine_step rest (d + a * b, na + a * a, nb + b * b))
      as [[d' na'] nb'].
    destruct IH as [dot norm]. rewrite dot, norm, zero. split; ring.
Qed.

Lemma cosine_sums_right_zero (l : list (Q * Q)) (d na nb : Q) :
  Forall (fun ab => snd ab == 0) l ->
  let '(d', _, nb') := fold_left cosine_step l (d, na, nb) in
  d' == d /\ nb' == nb.
Proof.
  revert d na nb.
  induction l as [| [a b] rest IH]; intros d na nb zeros; simpl.
  - split; reflexivity.
  - inversion zeros as [| ? ? zero others]; subst. simpl in zero.
    specialize (IH (d + a * b) (na + a * a) (nb + b * b) others).
    destruct (fold_left cosine_step rest (d + a * b, na + a * a, nb + b * b))
      as [[d' na'] nb'].
    destruct IH as [dot norm]. rewrite dot, norm, zero. split; ring.
Qed.

Lemma combine_left_zero (vecA vecB : list Q) :
  Forall (fun x => x == 0) vecA ->
  Forall (fun ab => fst ab == 0) (combine vecA vecB).
Proof.
  intros zeros. revert vecB.
  induction zeros as [| a rest zero others IH]; intros [| b vecB]; simpl;
    constructor; [exact zero | apply IH].
Qed.

Lemma combine_right_zero (vecA vecB : list Q) :
  Forall (fun x => x == 0) vecB ->
  Forall (fun ab => snd ab == 0) (combine vecA vecB).
Proof.
  intros zeros. revert vecA.
  induction zeros as [| b rest zero others IH]; intros [| a vecA]; simpl;
    constructor; [exact zero | apply IH].
Qed.

Section ZeroNorm.
Context {M : MathLib} {laws : MathLibSpec M}.

(** The square root of a zero sum of squares is a finite zero. *)
Lemma Math_sqrt_zero (q : Q) :
  q == 0 -> exists s, Math_sqrt (Fin q) = Fin s /\ s == 0.
Proof.
  intros zero. simpl.
  assert (le : Qle_bool 0 q = true) by (apply Qle_bool_iff; lra).
  rewrite le. eexists. split; [reflexivity |]. apply sqrt_fin_zero. exact zero.
Qed.

(** The square root of a finite number is finite or undefined. *)
Lemma Math_sqrt_Fin (q : Q) :
  (exists s, Math_sqrt (Fin q) = Fin s) \/ Math_sqrt (Fin q) = NaN.
Proof.
  simpl. destruct (Qle_bool 0 q); [left; eexists; reflexivity | right; reflexivity].
Qed.

Lemma zero_over_zero (d z : Q) : d == 0 -> z == 0 -> ndiv (Fin d) (Fin z) = NaN.
Proof.
  intros dz zz. simpl.
  assert (divisor : Qeq_bool z 0 = true) by (apply Qeq_bool_iff; exact zz).
  rewrite divisor.
  assert (sign : Qcompare d 0 = Eq) by (apply Qeq_alt; exact dz).
  rewrite sign. reflexivity.
Qed.

Lemma cosineSimilarity_zero (vecA vecB : list Q) :
  List.length vecA = List.length vecB ->
  norm_sq vecA == 0 \/ norm_sq vecB == 0 ->
  cosineSimilarity vecA vecB = Ok NaN.
Proof.
  intros same zero. unfold cosineSimilarity.
  apply Nat.eqb_eq in same. rewrite same. cbn [negb]. unfold cosine_sums.
  destruct zero as [zero | zero]; apply norm_sq_zero in zero.
  - pose proof (cosine_sums_left_zero (combine vecA vecB) 0 0 0
                  (combine_left_zero vecA vecB zero)) as sums.
    destruct (fold_left cosine_step (combine vecA vecB) (0, 0, 0))
      as [[d na] nb].
    destruct sums as [dot norm].
    destruct (Math_sqrt_zero na norm) as (s & root & none). rewrite root.
    destruct (Math_sqrt_Fin nb) as [(t & other) | other]; rewrite other.
    + f_equal. apply zero_over_zero; [exact dot |].
      rewrite none. ring.
    + reflexivity.
  - pose proof (cosine_sums_right_zero (combine vecA vecB) 0 0 0
                  (combine_right_zero vecA vecB zero)) as sums.
    destruct (fold_left cosine_step (combine vecA vecB) (0, 0, 0))
      as [[d na] nb].
    destruct sums as [dot norm].
    destruct (Math_sqrt_zero nb norm) as (s & root & none). rewrite root.
    destruct (Math_sqrt_Fin na) as [(t & other) | other]; rewrite other.
    + f_equal. apply zero_over_zero; [exact dot |].
      rewrite none. ring.
    + reflexivity.
Qed.

(** C8. When the query vector or the item vector has norm zero, the
    quotient of [cosineSimilarity] is undefined: the result is [NaN], not
    0.  Nothing in the ranking catches it: the semantic and the combined
    score of the item are [NaN], with or without geo context, and the
    [minScore] filter then drops the item whatever the threshold. *)
Theorem cosineSimilarity_zero_norm_NaN (vecA vecB : list Q) :
  List.length vecA = List.length vecB ->
  norm_sq vecA == 0 \/ norm_sq vecB == 0 ->
  cosineSimilarity vecA vecB = Ok NaN
  /\ Ok NaN <> Ok (Fin 0)
  /\ forall (o : SearchOptions) (i : Intention),
       embedding i = Some vecB ->
       exists r,
         score_intention o vecA i = Ok (Some r)
         /\ semantic (score r) = NaN
         /\ combined (score r) = NaN
         /\ keep_result o (Some r) = false.
Proof.
  intros same zero.
  pose proof (cosineSimilarity_zero vecA vecB same zero) as undefined.
  split; [exact undefined |]. split; [discriminate |].
  intros o i embedded. unfold score_intention.
  rewrite embedded, undefined.
  eexists. split; [reflexivity |]. simpl.
  destruct (hasGeoContext o i); repeat split; reflexivity.
Qed.
End ZeroNorm.

Lemma sample_math_spec : MathLibSpec sample_math.
Proof.
  constructor. intros [n dn] zero. unfold Qeq in *. simpl in *.
  assert (n = 0%Z) by lia. subst n. reflexivity.
Qed.

(** A run of C8: the all-zero item vector against the query [1, 2]. *)
Lemma cosineSimilarity_zero_norm_NaN_witness :
  @cosineSimilarity sample_math [1; 2] [0; 0] = Ok NaN.
Proof.
  destruct (@cosineSimilarity_zero_norm_NaN sample_math sample_math_spec
              [1; 2] [0; 0]) as (undefined & _).
  - reflexivity.
  - right. reflexivity.
  - exact undefined.
Defined.

(* ===================================================================== *)
(** * Ranking                                                             *)
(* ===================================================================== *)


Lemma map_result_total {A B} (f : A -> Result B) (xs : list A) :
  Forall (fun x => exists y, f x = Ok y) xs ->
  exists ys, map_result f xs = Ok ys.
Proof.
  induction 1 as [| x rest (y & head) others (tail & mapped)]; simpl.
  - eexists. reflexivity.
  - rewrite head, mapped. eexists. reflexivity.
Qed.







Section Ranking.
Context {M : MathLib} {E : EmbeddingModel}.


Lemma score_intention_total (o : SearchOptions) (queryEmbedding : list Q)
    (intentions : list Intention) :
  embeddings_fit (List.length queryEmbedding) intentions ->
  Forall (fun i => exists y, score_intention o queryEmbedding i = Ok y) intentions.
Proof.
  apply Forall_impl. intros i fits. unfold score_intention.
  destruct (embedding i) as [e |]; [| eexists; reflexivity].
  unfold cosineSimilarity. rewrite fits, Nat.eqb_refl. cbn [negb].
  destruct (cosine_sums queryEmbedding e) as [[d na] nb].
  eexists. reflexivity.
Qed.


End Ranking.


(* ===================================================================== *)
(** * Joining by invitation                                               *)
(* ===================================================================== *)

Lemma opens_app (t u : list Event) : opens (t ++ u) = (opens t ++ opens u)%list.
Proof. unfold opens. apply flat_map_app. Qed.

Lemma opens_dials (l : list string) : opens (map EvDial l) = [].
Proof. induction l as [| a rest IH]; simpl; [reflexivity | exact IH]. Qed.

Lemma same_browser_refl (w : World) : same_browser w w.
Proof. repeat split. Qed.

Lemma same_browser_trans (w1 w2 w3 : World) :
  same_browser w1 w2 -> same_browser w2 w3 -> same_browser w1 w3.
Proof.
  intros (s1 & d1 & p1 & o1) (s2 & d2 & p2 & o2).
  repeat split; congruence.
Qed.

Lemma same_browser_later (w : World) (ms : Z) : same_browser w (later w ms).
Proof. repeat split. Qed.

Lemma same_browser_logged (w : World) (es : list Event) :
  opens es = [] -> same_browser w (logged w es).
Proof.
  intros none. repeat split. simpl. rewrite opens_app, none.
  apply app_nil_r.
Qed.

Lemma log_events_run (es : list Event) (w : World) :
  exists w', log_events es w = (Returns tt, w')
             /\ (opens es = [] -> same_browser w w').
Proof.
  revert w. induction es as [| e rest IH]; intros w.
  - exists w. split; [reflexivity | intros _; apply same_browser_refl].
  - destruct (IH (logged w [e])) as (w' & run & frame).
    exists w'. split.
    + cbn [log_events]. erewrite bind_Returns; [exact run | apply log_event_run].
    + intros none. change (e :: rest) with ([e] ++ rest)%list in none.
      rewrite opens_app in none.
      apply app_eq_nil in none. destruct none as [head tail].
      eapply same_browser_trans; [apply same_browser_logged; exact head |].
      apply frame. exact tail.
Qed.

(** Dialing always comes back with a verdict and leaves the join state
    alone. *)
Lemma dialDirectPeers_frame (libp2p : option Libp2p)
    (multiaddrs : option (list string)) (w : World) :
  exists connected w',
    dialDirectPeers libp2p multiaddrs w = (Returns connected, w')
    /\ same_browser w w'.
Proof.
  unfold dialDirectPeers.
  destruct libp2p as [node |];
    [| exists false, w; split; [reflexivity | apply same_browser_refl]].
  destruct multiaddrs as [[| first others] |];
    try (exists false, w; split; [reflexivity | apply same_browser_refl]).
  destruct (log_events_run (map EvDial (first :: others)) w)
    as (w1 & logs & frame).
  specialize (frame (opens_dials _)).
  erewrite bind_Returns; [| exact logs].
  unfold try_catch, bind.
  destruct (allSettled (map (dial_attempt node) (first :: others)))
    as [ms results | ms e |]; simpl.
  - destruct (ms <? 10000)%Z; simpl.
    + destruct (0 <? List.length (filter (fun r => r) results))%nat;
        eexists; eexists; (split; [reflexivity |]);
        (eapply same_browser_trans; [exact frame | apply same_browser_later]).
    + eexists; eexists; (split; [reflexivity |]);
        (eapply same_browser_trans; [exact frame | apply same_browser_later]).
  - destruct (ms <? 10000)%Z; simpl;
      eexists; eexists; (split; [reflexivity |]);
      (eapply same_browser_trans; [exact frame | apply same_browser_later]).
  - eexists; eexists; (split; [reflexivity |]);
      (eapply same_browser_trans; [exact frame | apply same_browser_later]).
Qed.

Lemma connect_directly_frame (libp2p : option Libp2p)
    (peerMultiaddrs : option (list string)) (w : World) :
  exists connected w',
    connect_directly libp2p peerMultiaddrs w = (Returns connected, w')
    /\ same_browser w w'.
Proof.
  unfold connect_directly.
  destruct (has_peers peerMultiaddrs &&
            match libp2p with Some _ => true | None => false end);
    [| exists false, w; split; [reflexivity | apply same_browser_refl]].
  destruct (dialDirectPeers_frame libp2p peerMultiaddrs w)
    as (connected & w1 & dialed & frame).
  erewrite bind_Returns; [| exact dialed].
  destruct connected.
  - eexists; eexists. split; [reflexivity |].
    eapply same_browser_trans; [exact frame |].
    eapply same_browser_trans;
      [apply (same_browser_logged w1 [EvSleep 1000]); reflexivity |].
    apply same_browser_later.
  - eexists; eexists. split; [reflexivity |]. exact frame.
Qed.

(** What opening the invited store does, by cases on how the open
    settles against the deadline chosen. *)
Lemma open_invited_run (orbitdb : OrbitDB) (urlAddress : string)
    (directPeerConnected : bool) (w : World) :
  let deadline := if directPeerConnected then 30000%Z else 90000%Z in
  exists w',
    snd (open_invited orbitdb urlAddress directPeerConnected w) = w'
    /\ opens (trace w') = (opens (trace w) ++ [(urlAddress, false)])%list
    /\ url_peers w' = (match fst (open_invited orbitdb urlAddress directPeerConnected w) with
                       | Returns _ => match url_db w with Some _ => None | None => url_peers w end
                       | _ => url_peers w
                       end)
    /\ match fst (open_invited orbitdb urlAddress directPeerConnected w) with
       | Returns database =>
           resolves_before (open orbitdb urlAddress false) deadline = true
           /\ (exists ms, open orbitdb urlAddress false = Resolves ms database)
           /\ stored_address w' = Some urlAddress
           /\ url_db w' = None
       | Throws _ =>
           resolves_before (open orbitdb urlAddress false) deadline = false
           /\ stored_address w' = stored_address w
           /\ url_db w' = url_db w
       | Hangs => False
       end.
Proof.
  intros deadline. unfold open_invited, start_open. fold deadline.
  run_async. unfold race_timeout, clearDatabaseFromURL.
  destruct (open orbitdb urlAddress false) as [ms database | ms e |]; simpl.
  - destruct (ms <? deadline)%Z eqn:fast; run_async.
    + destruct (url_db w); simpl; eexists; (split; [reflexivity |]); simpl;
        rewrite opens_app; repeat split; try reflexivity;
        eexists; reflexivity.
    + eexists; (split; [reflexivity |]); simpl.
      rewrite opens_app. repeat split; reflexivity.
  - destruct (ms <? deadline)%Z eqn:fast; run_async;
      eexists; (split; [reflexivity |]); simpl;
      rewrite opens_app; repeat split; reflexivity.
  - eexists; (split; [reflexivity |]); simpl.
    rewrite opens_app. repeat split; reflexivity.
Qed.

Lemma resolves_before_longer {A} (p : Settled A) (d1 d2 : Z) :
  (d1 <= d2)%Z -> resolves_before p d1 = true -> resolves_before p d2 = true.
Proof.
  destruct p as [ms v | ms e |]; simpl; try discriminate.
  rewrite !Z.ltb_lt. lia.
Qed.

(** The invitation branch as a whole. *)
Lemma join_via_invitation_run (orbitdb : OrbitDB) (libp2p : option Libp2p)
    (urlAddress : string) (peerMultiaddrs : option (list string))
    (other : string) (w : World) :
  url_db w = Some other ->
  let run := join_via_invitation orbitdb libp2p urlAddress peerMultiaddrs w in
  opens (trace (snd run)) = (opens (trace w) ++ [(urlAddress, false)])%list
  /\ url_db (snd run) = None
  /\ url_peers (snd run) = None
  /\ match fst run with
     | Returns database =>
         stored_address (snd run) = Some urlAddress
         /\ exists ms, open orbitdb urlAddress false = Resolves ms database
     | Throws message =>
         message = (if has_peers peerMultiaddrs
                    then peer_unreachable_message
                    else discovery_timeout_message)
         /\ stored_address (snd run) = stored_address w
     | Hangs => False
     end
  /\ (resolves_before (open orbitdb urlAddress false) 30000 = true ->
      exists database, fst run = Returns database)
  /\ (resolves_before (open orbitdb urlAddress false) 90000 = false ->
      exists message, fst run = Throws message).
Proof.
  intros linked run. subst run. unfold join_via_invitation.
  destruct (connect_directly_frame libp2p peerMultiaddrs w)
    as (connected & w1 & dialed & (stored1 & db1 & peers1 & opens1)).
  pose proof (open_invited_run orbitdb urlAddress connected w1) as opened.
  cbv zeta in opened.
  destruct opened as (w2 & final & attempts & hints & outcome).
  assert (step : bind (connect_directly libp2p peerMultiaddrs)
                   (fun directPeerConnected =>
                      open_invited orbitdb urlAddress directPeerConnected) w
                 = open_invited orbitdb urlAddress connected w1)
    by (apply bind_Returns; exact dialed).
  assert (deadline_lo : (30000 <= (if connected then 30000 else 90000))%Z)
    by (destruct connected; lia).
  assert (deadline_hi : ((if connected then 30000 else 90000) <= 90000)%Z)
    by (destruct connected; lia).
  destruct (open_invited orbitdb urlAddress connected w1)
    as [[database | message |] w2'] eqn:invited; simpl in *; subst w2'.
  - erewrite try_catch_Returns; [| exact step]. simpl.
    destruct outcome as (fast & source & remembered & cleared).
    rewrite db1, linked in hints.
    split; [rewrite attempts, opens1; reflexivity |].
    split; [exact cleared |]. split; [exact hints |].
    split; [split; assumption |].
    split; [intros _; eexists; reflexivity |].
    intros slow. exfalso.
    apply (resolves_before_longer _ _ 90000 deadline_hi) in fast. congruence.
  - erewrite try_catch_Throws; [| exact step].
    destruct outcome as (slow & remembered & kept).
    unfold bind, clearDatabaseFromURL. rewrite kept, db1, linked.
    destruct (has_peers peerMultiaddrs); simpl;
      (split; [rewrite attempts, opens1; reflexivity |]);
      (split; [reflexivity |]); (split; [reflexivity |]);
      (split; [split; [reflexivity | congruence] |]);
      (split; [| intros _; eexists; reflexivity]);
      intros fast; exfalso;
      apply (resolves_before_longer _ _ _ deadline_lo) in fast; congruence.
  - contradiction.
Qed.

(** How the join reads its link: with a [db] parameter and a [peers]
    parameter that was parsed, it is the invitation branch. *)
Lemma openIntentionsDatabase_with_link (orbitdb : OrbitDB)
    (libp2p : option Libp2p) (w : World) (invited : string)
    (hints : option (list string)) :
  url_db w = Some invited -> truthy invited = true ->
  peers_of_param (url_peers w) = Ok hints ->
  openIntentionsDatabase orbitdb libp2p w =
  match join_via_invitation orbitdb libp2p invited hints w with
  | (Returns database, w') => (Returns (set_flags database false true), w')
  | (Throws message, w') => (Throws message, w')
  | (Hangs, w') => (Hangs, w')
  end.
Proof.
  intros linked nonempty parsed.
  unfold openIntentionsDatabase, getDatabaseAddressFromURL,
    getPeerMultiaddrsFromURL, localStorage_getItem.
  cbv [bind get_world ret]. rewrite linked, nonempty, parsed.
  destruct (join_via_invitation orbitdb libp2p invited hints w)
    as [[database | message |] w'];
    reflexivity.
Qed.

(** A [peers] parameter that cannot be decoded stops the join at its
    second line. *)
Lemma openIntentionsDatabase_malformed (orbitdb : OrbitDB)
    (libp2p : option Libp2p) (w : World) (m : string) :
  peers_of_param (url_peers w) = Throw m ->
  openIntentionsDatabase orbitdb libp2p w = (Throws m, w).
Proof.
  intros malformed.
  unfold openIntentionsDatabase, getDatabaseAddressFromURL,
    getPeerMultiaddrsFromURL.
  cbv [bind get_world ret throw].
  destruct (url_db w) as [a |]; [destruct (truthy a) |];
    rewrite malformed; reflexivity.
Qed.

Lemma nonblank_iff (a : string) :
  (0 <? String.length (trim a))%nat = true <-> trim a <> "".
Proof.
  destruct (trim a); simpl; split;
    try discriminate; try reflexivity.
  intros different. exfalso. apply different. reflexivity.
Qed.

Lemma filter_nonempty {A} (f : A -> bool) (l : list A) :
  (0 <? List.length (filter f l))%nat = true <-> exists x, In x l /\ f x = true.
Proof.
  split.
  - destruct (filter f l) as [| x kept] eqn:filtered; [discriminate |].
    intros _. exists x. apply filter_In. rewrite filtered. left. reflexivity.
  - intros (x & member & holds).
    assert (kept : In x (filter f l)) by (apply filter_In; split; assumption).
    destruct (filter f l); [contradiction | reflexivity].
Qed.

(** A well-formed [peers] parameter is parsed, and the parse holds an
    address exactly when the link names a peer. *)
Lemma peers_parsed (w : World) :
  peers_well_formed w ->
  exists hints,
    peers_of_param (url_peers w) = Ok hints
    /\ (has_peers hints = true <-> names_a_peer w).
Proof.
  unfold peers_well_formed, names_a_peer, peers_of_param, multiaddrs_of_param.
  destruct (url_peers w) as [p |].
  2:{ intros _. exists None. split; [reflexivity |].
      split; [discriminate |].
      intros (q & decoded & hint & absurd & _). discriminate. }
  intros (decoded & decodes). rewrite decodes.
  destruct (truthy p) eqn:some.
  - destruct (0 <? List.length
                     (filter (fun addr => (0 <? String.length (trim addr))%nat)
                             (split_comma decoded)))%nat eqn:found.
    + eexists. split; [reflexivity |].
      destruct (filter _ (split_comma decoded)) as [| first others] eqn:kept;
        [discriminate |].
      split; [| reflexivity]. intros _.
      assert (member : In first
                         (filter (fun addr => (0 <? String.length (trim addr))%nat)
                                 (split_comma decoded)))
        by (rewrite kept; left; reflexivity).
      apply filter_In in member. destruct member as [piece solid].
      exists p, decoded, first. repeat split; try assumption.
      apply nonblank_iff. exact solid.
    + exists None. split; [reflexivity |].
      split; [discriminate |].
      intros (q & decoded' & hint & same & decodes' & piece & solid).
      injection same as <-. rewrite decodes in decodes'.
      injection decodes' as <-.
      assert (kept : (0 <? List.length
                            (filter (fun addr => (0 <? String.length (trim addr))%nat)
                                    (split_comma decoded)))%nat = true).
      { apply filter_nonempty. exists hint. split; [exact piece |].
        apply nonblank_iff. exact solid. }
      congruence.
  - exists None. split; [reflexivity |].
    split; [discriminate |].
    intros (q & decoded' & hint & same & decodes' & piece & solid).
    exfalso. injection same as <-. apply truthy_false in some.
    rewrite some in decodes'. injection decodes' as <-.
    destruct piece as [<- | []]. apply solid. reflexivity.
Qed.




(* ===================================================================== *)
(** * Dialing the peers of an invitation                                  *)
(* ===================================================================== *)

Lemma allSettled_dials (node : Libp2p) (l : list string) :
  match allSettled (map (dial_attempt node) l) with
  | Resolves ms results =>
      results = map (dial_connects node) l
      /\ forall deadline, (0 < deadline)%Z ->
           (ms <? deadline)%Z = forallb (dial_settles_before node deadline) l
  | Rejects _ _ => False
  | Never => forall deadline, forallb (dial_settles_before node deadline) l = false
  end.
Proof.
  induction l as [| a rest IH]; simpl.
  - split; [reflexivity |]. intros deadline positive.
    apply Z.ltb_lt. exact positive.
  - unfold dial_attempt at 1, dial_settles_before at 1 3, dial_connects at 1.
    destruct (dial node a) as [ms [] | ms e |];
      destruct (allSettled (map (dial_attempt node) rest)) as [ms' results | |];
      try contradiction; simpl.
    + destruct IH as [same timing]. split; [rewrite same; reflexivity |].
      intros deadline positive. rewrite <- (timing deadline positive).
      destruct (Z.ltb_spec ms deadline), (Z.ltb_spec ms' deadline),
        (Z.ltb_spec (Z.max ms ms') deadline); simpl; try reflexivity; lia.
    + intros deadline. rewrite IH. apply andb_false_r.
    + destruct IH as [same timing]. split; [rewrite same; reflexivity |].
      intros deadline positive. rewrite <- (timing deadline positive).
      destruct (Z.ltb_spec ms deadline), (Z.ltb_spec ms' deadline),
        (Z.ltb_spec (Z.max ms ms') deadline); simpl; try reflexivity; lia.
    + intros deadline. rewrite IH. apply andb_false_r.
    + intros deadline. reflexivity.
    + intros deadline. reflexivity.
Qed.

Lemma some_true (results : list bool) :
  (0 <? List.length (filter (fun r => r) results))%nat = existsb (fun r => r) results.
Proof.
  induction results as [| [] rest IH]; simpl; [reflexivity | reflexivity | exact IH].
Qed.

Lemma existsb_map {A B} (f : A -> B) (p : B -> bool) (l : list A) :
  existsb p (map f l) = existsb (fun a => p (f a)) l.
Proof. induction l as [| a rest IH]; simpl; [reflexivity | rewrite IH; reflexivity]. Qed.

(** Dialing the peers of an invitation never fails and never hangs: it
    answers [true] exactly when every dial settled, one way or the other,
    within 10 s and at least one of them connected.  One dial that stays
    pending makes the answer [false] even when another one connected.
    Without a libp2p instance or without addresses nothing is dialed.
    Dialing leaves the remembered address, the link and the cache alone. *)
Theorem dialDirectPeers_verdict (libp2p : option Libp2p)
    (multiaddrs : option (list string)) (w : World) :
  exists w',
    dialDirectPeers libp2p multiaddrs w =
    (Returns
       match libp2p, multiaddrs with
       | Some node, Some addrs =>
           forallb (dial_settles_before node 10000) addrs
           && existsb (dial_connects node) addrs
       | _, _ => false
       end,
     w')
    /\ same_browser w w'
    /\ cache_store w' = cache_store w.
Proof.
  unfold dialDirectPeers.
  destruct libp2p as [node |];
    [| exists w; repeat split; reflexivity].
  destruct multiaddrs as [[| first others] |];
    try (exists w; repeat split; reflexivity).
  remember (first :: others) as addrs eqn:named. clear named.
  destruct (log_events_run (map EvDial addrs) w) as (w1 & logs & frame).
  specialize (frame (opens_dials _)).
  assert (cache1 : cache_store w1 = cache_store w).
  { clear frame. revert w w1 logs. generalize (map EvDial addrs).
    induction l as [| e rest IH]; intros w w1 logs.
    - injection logs as <-. reflexivity.
    - cbn [log_events] in logs.
      erewrite bind_Returns in logs; [| apply log_event_run].
      apply IH in logs. exact logs. }
  erewrite bind_Returns; [| exact logs].
  pose proof (allSettled_dials node addrs) as settled.
  unfold try_catch, bind.
  destruct (allSettled (map (dial_attempt node) addrs))
    as [ms results | ms e |]; [| contradiction |].
  - destruct settled as [same timing].
    rewrite <- (timing 10000%Z) by lia. simpl.
    destruct (ms <? 10000)%Z; simpl.
    + rewrite some_true, same, existsb_map.
      change (existsb (fun a => dial_connects node a) addrs)
        with (existsb (dial_connects node) addrs).
      destruct (existsb (dial_connects node) addrs);
        simpl; eexists; (split; [reflexivity |]);
        (split; [eapply same_browser_trans;
                   [exact frame | apply same_browser_later] | exact cache1]).
    + eexists; (split; [reflexivity |]);
        (split; [eapply same_browser_trans;
                   [exact frame | apply same_browser_later] | exact cache1]).
  - rewrite settled. simpl.
    eexists; (split; [reflexivity |]);
      (split; [eapply same_browser_trans;
                 [exact frame | apply same_browser_later] | exact cache1]).
Qed.

(* ===================================================================== *)
(** * Joining without an invitation                                       *)
(* ===================================================================== *)

(** The last step of the join: creating the global store. *)
Lemma create_new_run (orbitdb : OrbitDB) (viaInvitation : bool) (w : World) :
  (opening <- start_open orbitdb globalDatabaseName true ;;
   database <- race_timeout opening 15000
                 "Database open timeout after 15 seconds" ;;
   localStorage_setItem (address database) ;;;
   ret (set_flags database true viaInvitation)) w
  = match open orbitdb globalDatabaseName true with
    | Resolves ms database =>
        if (ms <? 15000)%Z
        then (Returns (set_flags database true viaInvitation),
              let w1 := later (logged w [EvOpen globalDatabaseName true]) ms in
              {| now := now w1; random_suffix := random_suffix w1;
                 indexedDB_ok := indexedDB_ok w1; cache_store := cache_store w1;
                 stored_address := Some (address database);
                 url_db := url_db w1; url_peers := url_peers w1;
                 trace := trace w1 |})
        else (Throws "Database open timeout after 15 seconds",
              later (logged w [EvOpen globalDatabaseName true]) 15000)
    | Rejects ms e =>
        if (ms <? 15000)%Z
        then (Throws e, later (logged w [EvOpen globalDatabaseName true]) ms)
        else (Throws "Database open timeout after 15 seconds",
              later (logged w [EvOpen globalDatabaseName true]) 15000)
    | Never =>
        (Throws "Database open timeout after 15 seconds",
         later (logged w [EvOpen globalDatabaseName true]) 15000)
    end.
Proof.
  unfold start_open. run_async. unfold race_timeout.
  destruct (open orbitdb globalDatabaseName true) as [ms database | ms e |];
    try destruct (ms <? 15000)%Z; reflexivity.
Qed.

(** Without a [db] parameter the join is the reopening of the remembered
    address, if there is one, followed if need be by the creation. *)
Lemma openIntentionsDatabase_without_link (orbitdb : OrbitDB)
    (libp2p : option Libp2p) (w : World) (hints : option (list string)) :
  truthy_opt (url_db w) = false ->
  peers_of_param (url_peers w) = Ok hints ->
  openIntentionsDatabase orbitdb libp2p w =
  (reopened <-
     match stored_address w with
     | Some stored =>
         if truthy stored then
           try_catch
             (opening <- start_open orbitdb stored false ;;
              database <- race_timeout opening 30000
                            "Database open timeout after 30 seconds" ;;
              ret (Some database))
             (fun _ => localStorage_removeItem ;;; ret None)
         else ret None
     | None => ret None
     end ;;
   match reopened with
   | Some database => ret (set_flags database false false)
   | None =>
       opening <- start_open orbitdb globalDatabaseName true ;;
       database <- race_timeout opening 15000
                     "Database open timeout after 15 seconds" ;;
       localStorage_setItem (address database) ;;;
       ret (set_flags database true false)
   end) w.
Proof.
  intros unlinked parsed.
  unfold openIntentionsDatabase, getDatabaseAddressFromURL,
    getPeerMultiaddrsFromURL, localStorage_getItem.
  cbv [bind get_world ret] in *.
  destruct (url_db w) as [a |]; simpl in unlinked;
    [rewrite unlinked |]; simpl; rewrite parsed;
    destruct (stored_address w) as [stored |]; reflexivity.
Qed.

(** Without an invitation and with a [peers] parameter that, if there is
    one, can be decoded, a remembered address that opens within 30 s is
    the session: one open attempt, on that address and not creating, no
    flag set, and the remembered address stays. *)
Theorem remembered_address_reopened (orbitdb : OrbitDB)
    (libp2p : option Libp2p) (w : World) (remembered : string) :
  truthy_opt (url_db w) = false ->
  peers_well_formed w ->
  stored_address w = Some remembered -> truthy remembered = true ->
  resolves_before (open orbitdb remembered false) 30000 = true ->
  exists ms database w',
    open orbitdb remembered false = Resolves ms database
    /\ openIntentionsDatabase orbitdb libp2p w =
       (Returns (set_flags database false false), w')
    /\ stored_address w' = Some remembered
    /\ trace w' = (trace w ++ [EvOpen remembered false])%list
    /\ now w' = (now w + ms)%Z.
Proof.
  intros unlinked decodes stored nonempty fast.
  destruct (peers_parsed w decodes) as (hints & parsed & _).
  rewrite (openIntentionsDatabase_without_link _ _ _ _ unlinked parsed).
  rewrite stored, nonempty.
  destruct (open orbitdb remembered false) as [ms database | |] eqn:opened;
    try discriminate.
  simpl in fast.
  exists ms, database. eexists. split; [reflexivity |].
  unfold start_open. run_async. rewrite opened. simpl. rewrite fast. simpl.
  split; [reflexivity |]. simpl. repeat split. exact stored.
Qed.

(** Without an invitation and with a [peers] parameter that, if there is
    one, can be decoded, a remembered address that does not open within
    30 s is forgotten and the global store is created instead: two open
    attempts in this order.  If the creation resolves within 15 s the
    session is flagged as new and its address is remembered; otherwise the
    join fails and no address is remembered any more. *)
Theorem remembered_address_forgotten (orbitdb : OrbitDB)
    (libp2p : option Libp2p) (w : World) (remembered : string) :
  truthy_opt (url_db w) = false ->
  peers_well_formed w ->
  stored_address w = Some remembered -> truthy remembered = true ->
  resolves_before (open orbitdb remembered false) 30000 = false ->
  let run := openIntentionsDatabase orbitdb libp2p w in
  opens (trace (snd run)) =
    (opens (trace w) ++ [(remembered, false); (globalDatabaseName, true)])%list
  /\ match fst run with
     | Returns database =>
         resolves_before (open orbitdb globalDatabaseName true) 15000 = true
         /\ _isNewDatabase database = true
         /\ _isJoinedViaInvitation database = false
         /\ stored_address (snd run) = Some (address database)
     | Throws _ =>
         resolves_before (open orbitdb globalDatabaseName true) 15000 = false
         /\ stored_address (snd run) = None
     | Hangs => False
     end.
Proof.
  intros unlinked decodes stored nonempty slow run. subst run.
  destruct (peers_parsed w decodes) as (hints & parsed & _).
  rewrite (openIntentionsDatabase_without_link _ _ _ _ unlinked parsed).
  rewrite stored, nonempty.
  destruct (race_timeout_fails (open orbitdb remembered false) 30000
              "Database open timeout after 30 seconds"
              (logged w [EvOpen remembered false]) slow) as (e & ms & failed).
  erewrite bind_Returns.
  2:{ erewrite try_catch_Throws; [reflexivity |].
      unfold start_open.
      erewrite bind_Returns;
        [| erewrite bind_Returns; [reflexivity | apply log_event_run]].
      erewrite bind_Throws; [reflexivity | exact failed]. }
  cbv beta iota. rewrite create_new_run.
  destruct (open orbitdb globalDatabaseName true) as [ms' database | ms' e' |];
    simpl; try destruct (ms' <? 15000)%Z; simpl;
    rewrite !opens_app; simpl; rewrite <- !app_assoc; simpl;
    repeat split; reflexivity.
Qed.

(** A run: the remembered store answers after 900 ms. *)
Lemma remembered_address_reopened_witness :
  exists ms database w',
    open (selective_orbitdb (Resolves 900 (sample_database Never [] Never)) Never)
      "/orbitdb/remembered" false = Resolves ms database
    /\ openIntentionsDatabase
         (selective_orbitdb (Resolves 900 (sample_database Never [] Never)) Never)
         None
         (sample_world_with [] (Some "/orbitdb/remembered") None None)
       = (Returns (set_flags database false false), w')
    /\ stored_address w' = Some "/orbitdb/remembered".
Proof.
  destruct (remembered_address_reopened
              (selective_orbitdb (Resolves 900 (sample_database Never [] Never)) Never)
              None
              (sample_world_with [] (Some "/orbitdb/remembered") None None)
              "/orbitdb/remembered" eq_refl I eq_refl eq_refl eq_refl)
    as (ms & database & w' & opened & run & kept & _).
  exists ms, database, w'. repeat split; assumption.
Defined.

(** A run: the remembered store is gone, the creation takes 800 ms. *)
Lemma remembered_address_forgotten_witness :
  let run :=
    openIntentionsDatabase
      (selective_orbitdb (Rejects 50 "not found")
         (Resolves 800 (sample_database Never [] Never)))
      None
      (sample_world_with [] (Some "/orbitdb/remembered") None None) in
  opens (trace (snd run)) =
  [("/orbitdb/remembered", false); (globalDatabaseName, true)].
Proof.
  intros run.
  destruct (remembered_address_forgotten
              (selective_orbitdb (Rejects 50 "not found")
                 (Resolves 800 (sample_database Never [] Never)))
              None
              (sample_world_with [] (Some "/orbitdb/remembered") None None)
              "/orbitdb/remembered" eq_refl I eq_refl eq_refl eq_refl)
    as (attempts & _).
  exact attempts.
Defined.

(** Whatever the link, the storage and the network do, the join never
    hangs: every open is raced against a deadline.  When it returns a
    session, an address is remembered afterwards; the session is flagged
    as joined by invitation exactly when the link carried a store address;
    the two flags are never both set; and a session flagged as new is the
    one whose address is remembered. *)
Theorem join_postconditions (orbitdb : OrbitDB) (libp2p : option Libp2p)
    (w : World) :
  let run := openIntentionsDatabase orbitdb libp2p w in
  fst run <> Hangs
  /\ forall database,
       fst run = Returns database ->
       stored_address (snd run) <> None
       /\ _isJoinedViaInvitation database = truthy_opt (url_db w)
       /\ (_isJoinedViaInvitation database = true ->
           _isNewDatabase database = false)
       /\ (_isNewDatabase database = true ->
           stored_address (snd run) = Some (address database)).
Proof.
  intros run. subst run.
  destruct (peers_of_param (url_peers w)) as [hints | m] eqn:parsed.
  2:{ rewrite (openIntentionsDatabase_malformed _ _ _ _ parsed).
      split; discriminate. }
  destruct (truthy_opt (url_db w)) eqn:linked.
  - destruct (url_db w) as [invited |] eqn:link; [| discriminate].
    simpl in linked.
    rewrite (openIntentionsDatabase_with_link _ _ _ _ _ link linked parsed).
    pose proof (join_via_invitation_run orbitdb libp2p invited
                  hints invited w link) as joined.
    cbv zeta in joined.
    destruct (join_via_invitation orbitdb libp2p invited hints w)
      as [[database | message |] w']; simpl in *;
      destruct joined as (_ & _ & _ & outcome & _).
    + split; [discriminate |]. intros d same. injection same as <-.
      destruct outcome as (kept & _). simpl.
      split; [congruence |]. split; [reflexivity |].
      split; [reflexivity | discriminate].
    + split; discriminate.
    + contradiction.
  - rewrite (openIntentionsDatabase_without_link _ _ _ _ linked parsed).
    assert (created : forall w0,
               let made :=
                 (opening <- start_open orbitdb globalDatabaseName true ;;
                  database <- race_timeout opening 15000
                                "Database open timeout after 15 seconds" ;;
                  localStorage_setItem (address database) ;;;
                  ret (set_flags database true false)) w0 in
               fst made <> Hangs
               /\ forall database,
                    fst made = Returns database ->
                    stored_address (snd made) <> None
                    /\ _isJoinedViaInvitation database = false
                    /\ (_isJoinedViaInvitation database = true ->
                        _isNewDatabase database = false)
                    /\ (_isNewDatabase database = true ->
                        stored_address (snd made) = Some (address database))).
    { intros w0 made. subst made. rewrite create_new_run.
      destruct (open orbitdb globalDatabaseName true) as [ms d | ms e |];
        try destruct (ms <? 15000)%Z; simpl;
        (split; [discriminate |]); intros database same;
        try discriminate.
      injection same as <-. simpl.
      repeat split; try discriminate. }
    destruct (stored_address w) as [stored |] eqn:remembered.
    2:{ unfold bind at 1, ret at 1. apply created. }
    destruct (truthy stored) eqn:nonempty.
    2:{ unfold bind at 1, ret at 1. apply created. }
    destruct (resolves_before (open orbitdb stored false) 30000) eqn:fast.
    + destruct (open orbitdb stored false) as [ms d | |] eqn:opened;
        try discriminate.
      simpl in fast. unfold start_open. run_async. rewrite opened. simpl.
      rewrite fast. simpl. split; [discriminate |].
      intros database same. injection same as <-. simpl.
      repeat split; try discriminate. congruence.
    + destruct (race_timeout_fails (open orbitdb stored false) 30000
                  "Database open timeout after 30 seconds"
                  (logged w [EvOpen stored false]) fast) as (e & ms & failed).
      erewrite bind_Returns.
      2:{ erewrite try_catch_Throws; [reflexivity |].
          unfold start_open.
          erewrite bind_Returns;
            [| erewrite bind_Returns; [reflexivity | apply log_event_run]].
          erewrite bind_Throws; [reflexivity | exact failed]. }
      cbv beta iota. apply created.
Qed.

(** A run: no link, nothing remembered, the creation takes 800 ms. *)
Lemma join_postconditions_witness :
  let run :=
    openIntentionsDatabase
      (selective_orbitdb Never (Resolves 800 (sample_database Never [] Never)))
      None sample_world in
  stored_address (snd run) = Some "/orbitdb/zdpuAkstore".
Proof.
  intros run.
  destruct (join_postconditions
              (selective_orbitdb Never (Resolves 800 (sample_database Never [] Never)))
              None sample_world) as (_ & after).
  destruct (after (set_flags (sample_database Never [] Never) true false) eq_refl)
    as (_ & _ & _ & remembered).
  apply remembered. reflexivity.
Defined.

(* ===================================================================== *)
(** * The IndexedDB cache                                                 *)
(* ===================================================================== *)

Lemma string_compare_refl (s : string) : String.compare s s = Eq.
Proof.
  induction s as [| c rest IH]; simpl; [reflexivity |].
  unfold Ascii.compare. rewrite N.compare_refl. exact IH.
Qed.

Lemma string_compare_Lt_trans (a b c : string) :
  String.compare a b = Lt -> String.compare b c = Lt -> String.compare a c = Lt.
Proof.
  revert b c.
  induction a as [| x a IH]; intros [| y b] [| z c]; simpl;
    try discriminate; try reflexivity.
  unfold Ascii.compare.
  destruct (N.compare_spec (N_of_ascii x) (N_of_ascii y)) as [xy | xy | xy];
    destruct (N.compare_spec (N_of_ascii y) (N_of_ascii z)) as [yz | yz | yz];
    try discriminate; intros ab bc.
  - rewrite xy, yz, N.compare_refl. eapply IH; eassumption.
  - rewrite xy. apply N.compare_lt_iff in yz. rewrite yz. reflexivity.
  - rewrite <- yz. apply N.compare_lt_iff in xy. rewrite xy. reflexivity.
  - assert (xz : (N_of_ascii x < N_of_ascii z)%N) by lia.
    apply N.compare_lt_iff in xz. rewrite xz. reflexivity.
Qed.

Lemma idb_put_keyed (x : Intention) (store : list Intention) :
  StronglySorted (fun a b => String.compare (intentionId a) (intentionId b) = Lt) store ->
  StronglySorted (fun a b => String.compare (intentionId a) (intentionId b) = Lt)
    (idb_put x store).
Proof.
  induction 1 as [| z rest sorted IH above]; simpl.
  - constructor; constructor.
  - destruct (String.compare (intentionId x) (intentionId z)) eqn:order.
    + apply String.compare_eq_iff in order.
      constructor; [exact sorted |]. rewrite order. exact above.
    + constructor; [constructor; assumption |].
      constructor; [exact order |].
      eapply Forall_impl; [| exact above].
      intros b zb. eapply string_compare_Lt_trans; eassumption.
    + constructor; [exact IH |].
      apply Forall_forall. intros b member.
      destruct (idb_put_In_inv _ _ _ member) as [-> | there].
      * rewrite String.compare_antisym, order. reflexivity.
      * rewrite Forall_forall in above. apply above. exact there.
Qed.

Lemma idb_fold_keyed (l acc : list Intention) :
  StronglySorted (fun a b => String.compare (intentionId a) (intentionId b) = Lt) acc ->
  StronglySorted (fun a b => String.compare (intentionId a) (intentionId b) = Lt)
    (fold_left (fun store x => idb_put x store) l acc).
Proof.
  revert acc. induction l as [| x rest IH]; intros acc sorted; simpl.
  - exact sorted.
  - apply IH, idb_put_keyed. exact sorted.
Qed.

Lemma keyed_NoDup (store : list Intention) :
  StronglySorted (fun a b => String.compare (intentionId a) (intentionId b) = Lt) store ->
  NoDup (map intentionId store).
Proof.
  induction 1 as [| z rest sorted IH above]; simpl; constructor; [| exact IH].
  intros member. apply in_map_iff in member.
  destruct member as (b & same & there).
  rewrite Forall_forall in above. specialize (above b there).
  rewrite same, string_compare_refl in above. discriminate.
Qed.

Lemma idb_put_perm (x : Intention) (store : list Intention) :
  ~ In (intentionId x) (map intentionId store) ->
  Permutation (x :: store) (idb_put x store).
Proof.
  induction store as [| z rest IH]; simpl; intros fresh.
  - apply Permutation_refl.
  - destruct (String.compare (intentionId x) (intentionId z)) eqn:order.
    + apply String.compare_eq_iff in order. exfalso. apply fresh.
      left. symmetry. exact order.
    + apply Permutation_refl.
    + eapply perm_trans; [apply perm_swap |]. apply perm_skip. apply IH.
      intros there. apply fresh. right. exact there.
Qed.

Lemma idb_fold_perm (l acc : list Intention) :
  NoDup (map intentionId (l ++ acc)) ->
  Permutation (l ++ acc) (fold_left (fun store x => idb_put x store) l acc).
Proof.
  revert acc. induction l as [| x rest IH]; intros acc distinct; simpl.
  - apply Permutation_refl.
  - simpl in distinct. inversion distinct as [| ? ? fresh others]; subst.
    assert (put : Permutation (x :: acc) (idb_put x acc)).
    { apply idb_put_perm. intros there. apply fresh.
      rewrite map_app. apply in_or_app. right. exact there. }
    eapply perm_trans; [| apply IH].
    + eapply perm_trans; [apply Permutation_middle |].
      apply Permutation_app_head. exact put.
    + eapply Permutation_NoDup; [| exact distinct].
      change (intentionId x :: map intentionId (rest ++ acc))
        with (map intentionId (x :: rest ++ acc)).
      apply Permutation_map.
      eapply perm_trans; [apply Permutation_middle |].
      apply Permutation_app_head. exact put.
Qed.

Lemma idb_replace_all_perm (l : list Intention) :
  NoDup (map intentionId l) -> Permutation l (idb_replace_all l).
Proof.
  intros distinct. unfold idb_replace_all.
  rewrite <- (app_nil_r l) at 1. apply idb_fold_perm.
  rewrite app_nil_r. exact distinct.
Qed.

Lemma idb_replace_all_NoDup (l : list Intention) :
  NoDup (map intentionId (idb_replace_all l)).
Proof. apply keyed_NoDup, idb_fold_keyed. constructor. Qed.

(** Saving a list to the cache and reading the cache back, with
    IndexedDB available: the read returns records of the saved list only,
    newest first, never two with the same id; when the saved ids are
    distinct it returns all of them. *)
Theorem cache_round_trip (intentions : list Intention) (w : World) :
  indexedDB_ok w = true ->
  exists w1 back,
    saveIntentionsToCache intentions w = (Returns tt, w1)
    /\ fst (loadIntentionsFromCache w1) = Returns back
    /\ newest_first back
    /\ NoDup (map intentionId back)
    /\ (forall x, In x back -> In x intentions)
    /\ (NoDup (map intentionId intentions) -> Permutation intentions back).
Proof.
  intros ok.
  destruct (saveIntentionsToCache_run intentions w)
    as (w1 & saved & cache & _ & still & _).
  rewrite ok in cache, still.
  exists w1, (js_sort by_createdAt_desc (cache_store w1)).
  split; [exact saved |].
  split; [rewrite loadIntentionsFromCache_run, still; reflexivity |].
  split; [apply createdAt_sorted |].
  rewrite cache.
  split.
  { eapply Permutation_NoDup;
      [apply Permutation_map, js_sort_perm | apply idb_replace_all_NoDup]. }
  split.
  { intros x member.
    apply (Permutation_in _ (Permutation_sym (js_sort_perm _ _))) in member.
    destruct (idb_fold_In_inv _ _ _ member) as [there | []]. exact there. }
  intros distinct.
  eapply perm_trans; [apply idb_replace_all_perm; exact distinct |].
  apply js_sort_perm.
Qed.

(** Concrete id lists are distinct. *)
Ltac distinct_ids :=
  repeat (constructor; [simpl; intuition discriminate |]); constructor.

(** A run: the three sample records. *)
Lemma cache_round_trip_witness :
  exists w1 back,
    saveIntentionsToCache (map value sample_entries) sample_world = (Returns tt, w1)
    /\ fst (loadIntentionsFromCache w1) = Returns back
    /\ Permutation (map value sample_entries) back.
Proof.
  destruct (cache_round_trip (map value sample_entries) sample_world eq_refl)
    as (w1 & back & saved & read & _ & _ & _ & all_back).
  exists w1, back. split; [exact saved |]. split; [exact read |].
  apply all_back. simpl. distinct_ids.
Defined.

Lemma idb_put_keeps (x y : Intention) (store : list Intention) :
  In x store -> intentionId x <> intentionId y -> In x (idb_put y store).
Proof.
  intros member other.
  induction store as [| z rest IH]; simpl; [contradiction |].
  destruct (String.compare (intentionId y) (intentionId z)) eqn:order.
  - apply String.compare_eq_iff in order.
    destruct member as [-> | there]; [congruence | right; exact there].
  - right. exact member.
  - destruct member as [-> | there]; [left; reflexivity | right; apply IH; exact there].
Qed.

Lemma loadIntentions_success_run (d : Database) (w : World) (ms : Z) (entries : list Entry) :
  all d = Resolves ms entries -> (ms < 30000)%Z ->
  exists w',
    loadIntentions (Some d) false w =
    (Returns (js_sort by_createdAt_desc (map value entries)), w')
    /\ cache_store w' =
       (if indexedDB_ok w
        then idb_replace_all (js_sort by_createdAt_desc (map value entries))
        else cache_store w)
    /\ indexedDB_ok w' = indexedDB_ok w
    /\ stored_address w' = stored_address w
    /\ trace w' =
       (trace w ++
        [EvStoreAll;
         EvCacheWrite (js_sort by_createdAt_desc (map value entries))])%list.
Proof.
  intros reads fast.
  destruct (saveIntentionsToCache_run
              (js_sort by_createdAt_desc (map value entries))
              (later (logged w [EvStoreAll]) ms))
    as (w' & save & cache & events & ok & stored & _).
  exists w'. split.
  - unfold loadIntentions.
    erewrite try_catch_Returns; [reflexivity |].
    erewrite bind_Returns; [| apply log_event_run].
    erewrite bind_Returns.
    2:{ rewrite reads. simpl. apply Z.ltb_lt in fast. rewrite fast. reflexivity. }
    erewrite bind_Returns; [reflexivity | exact save].
  - simpl in *. rewrite <- app_assoc in events. repeat split; assumption.
Qed.

(** A store read that succeeds refreshes the cache.  When the next store
    read fails, [loadIntentions] returns the empty list, but the cache
    still answers with the records of the successful read, newest first
    (the stored ids being distinct, IndexedDB being available). *)
Theorem store_read_then_offline (online offline : Database) (w : World)
    (ms : Z) (entries : list Entry) :
  indexedDB_ok w = true ->
  all online = Resolves ms entries -> (ms < 30000)%Z ->
  NoDup (map (fun e => intentionId (value e)) entries) ->
  resolves_before (all offline) 30000 = false ->
  exists fresh w1 w2 back,
    loadIntentions (Some online) false w = (Returns fresh, w1)
    /\ Permutation (map value entries) fresh
    /\ loadIntentions (Some offline) false w1 = (Returns [], w2)
    /\ fst (loadIntentionsFromCache w2) = Returns back
    /\ Permutation fresh back
    /\ newest_first back.
Proof.
  intros ok reads fast distinct slow.
  destruct (loadIntentions_success_run online w ms entries reads fast)
    as (w1 & first & cache & still & _).
  rewrite ok in cache, still.
  destruct (loadIntentions_failure_run offline w1 slow) as (pause & second).
  set (fresh := js_sort by_createdAt_desc (map value entries)) in *.
  exists fresh, w1, (later (logged w1 [EvStoreAll]) pause),
    (js_sort by_createdAt_desc (cache_store w1)).
  split; [exact first |].
  split; [apply js_sort_perm |].
  split; [exact second |].
  split; [rewrite loadIntentionsFromCache_run; simpl; rewrite still; reflexivity |].
  split; [| apply createdAt_sorted].
  rewrite cache.
  eapply perm_trans; [apply idb_replace_all_perm | apply js_sort_perm].
  eapply Permutation_NoDup; [apply Permutation_map, js_sort_perm |].
  rewrite map_map. exact distinct.
Qed.

Section CacheGrowth.
Context {E : EmbeddingModel}.

(** Creating an intention never loses cached records: with distinct ids
    in the cache beforehand, every cached record with another id than the
    new one is still cached afterwards, nothing else than the new record
    is added, the ids stay distinct, and when the new id was not in the
    cache the cache grows by exactly the new record. *)
Theorem createIntention_keeps_cache (d : Database) (data : IntentionData) (w : World) :
  title_missing data = false ->
  indexedDB_ok w = true ->
  NoDup (map intentionId (cache_store w)) ->
  exists r w',
    createIntention (Some d) data w = (Returns r, w')
    /\ NoDup (map intentionId (cache_store w'))
    /\ (forall x, In x (cache_store w) ->
                  intentionId x <> intentionId r -> In x (cache_store w'))
    /\ (forall x, In x (cache_store w') -> x = r \/ In x (cache_store w))
    /\ (~ In (intentionId r) (map intentionId (cache_store w)) ->
        Permutation (r :: cache_store w) (cache_store w')).
Proof.
  intros present ok distinct.
  destruct (createIntention_run d data w present)
    as (r & w' & run & _ & _ & _ & _ & _ & _ & _ & _ & cache & _).
  rewrite ok in cache.
  exists r, w'. split; [exact run |]. rewrite cache.
  split; [apply idb_replace_all_NoDup |].
  assert (sorted_distinct :
            NoDup (map intentionId (js_sort by_createdAt_desc (cache_store w)))).
  { eapply Permutation_NoDup; [apply Permutation_map, js_sort_perm | exact distinct]. }
  assert (shape : idb_replace_all (js_sort by_createdAt_desc (cache_store w) ++ [r])
                  = idb_put r (idb_replace_all (js_sort by_createdAt_desc (cache_store w)))).
  { unfold idb_replace_all. rewrite fold_left_app. reflexivity. }
  rewrite shape.
  assert (held : Permutation (cache_store w)
                   (idb_replace_all (js_sort by_createdAt_desc (cache_store w)))).
  { eapply perm_trans; [apply js_sort_perm |].
    apply idb_replace_all_perm. exact sorted_distinct. }
  split.
  { intros x member other. apply idb_put_keeps; [| exact other].
    apply (Permutation_in _ held). exact member. }
  split.
  { intros x member. destruct (idb_put_In_inv _ _ _ member) as [same | old].
    - left. exact same.
    - right. apply (Permutation_in _ (Permutation_sym held)). exact old. }
  intros fresh.
  eapply perm_trans; [apply perm_skip; exact held |].
  apply idb_put_perm. intros there. apply fresh.
  apply (Permutation_in _ (Permutation_sym (Permutation_map intentionId held))).
  exact there.
Qed.
End CacheGrowth.

(** A run: three records read online, then the peer is gone. *)
Lemma store_read_then_offline_witness :
  exists fresh w1 w2 back,
    loadIntentions (Some (sample_database (Resolves 120 sample_entries) [] Never))
      false sample_world = (Returns fresh, w1)
    /\ loadIntentions (Some (sample_database Never [] Never)) false w1
       = (Returns [], w2)
    /\ fst (loadIntentionsFromCache w2) = Returns back
    /\ Permutation fresh back.
Proof.
  destruct (store_read_then_offline
              (sample_database (Resolves 120 sample_entries) [] Never)
              (sample_database Never [] Never)
              sample_world 120 sample_entries)
    as (fresh & w1 & w2 & back & first & _ & second & read & same & _).
  - reflexivity.
  - reflexivity.
  - lia.
  - simpl. distinct_ids.
  - reflexivity.
  - exists fresh, w1, w2, back. repeat split; assumption.
Defined.

(** A run: one record cached, one created. *)
Lemma createIntention_keeps_cache_witness :
  exists r w',
    @createIntention sample_model (Some (sample_database Never [] Never))
      (sample_data "Help moving")
      (sample_world_with
         [sample_intention "int_1_a" "first" "" 1 None None] None None None)
    = (Returns r, w')
    /\ In (sample_intention "int_1_a" "first" "" 1 None None) (cache_store w')
    /\ In r (cache_store w').
Proof.
  destruct (@createIntention_keeps_cache sample_model
              (sample_database Never [] Never) (sample_data "Help moving")
              (sample_world_with
                 [sample_intention "int_1_a" "first" "" 1 None None]
                 None None None))
    as (r & w' & run & _ & kept & _ & grown).
  - reflexivity.
  - reflexivity.
  - simpl. distinct_ids.
  - exists r, w'. split; [exact run |].
    assert (created : r = fst (let '(o, _) :=
                         @createIntention sample_model
                           (Some (sample_database Never [] Never))
                           (sample_data "Help moving")
                           (sample_world_with
                              [sample_intention "int_1_a" "first" "" 1 None None]
                              None None None) in
                       match o with Returns a => (a, tt) | _ => (r, tt) end)).
    { rewrite run. reflexivity. }
    assert (fresh : ~ In (intentionId r) ["int_1_a"]).
    { rewrite created. vm_compute. intuition discriminate. }
    pose proof (grown fresh) as both.
    split; apply (Permutation_in _ both); simpl; auto.
Defined.

(* ===================================================================== *)
(** * Updating, completing, archiving, deleting, looking up               *)
(* ===================================================================== *)

Section Lifecycle.
Context {E : EmbeddingModel}.

(** Updating a record the store does not have throws the not-found error
    after the one store lookup: nothing is embedded and nothing is
    written.  Without an id nothing at all is started. *)
Theorem updateIntention_not_found (d : Database) (id : string)
    (updates : Updates) (w : World) (found : Z) :
  (truthy id = true ->
   get d id = Resolves found [] ->
   exists w',
     updateIntention (Some d) id updates w =
     (Throws ("Intention " ++ id ++ " not found"), w')
     /\ trace w' = (trace w ++ [EvStoreGet id])%list)
  /\ updateIntention (Some d) "" updates w =
     (Throws "Database and intentionId are required", w).
Proof.
  split; [| reflexivity].
  intros named missing. unfold updateIntention. rewrite named. simpl.
  unfold await. rewrite missing. run_async.
  eexists. split; reflexivity.
Qed.

(** Unlike [createIntention], [updateIntention] has no deadline and no
    local fallback: on a record that exists, a store that rejects the
    write makes the update throw that error, and a store whose lookup or
    write never settles makes the update wait for ever. *)
Theorem updateIntention_unprotected (d : Database) (id : string)
    (updates : Updates) (w : World) (stored : Intention)
    (others : list Intention) (found : Z) :
  truthy id = true ->
  (get d id = Never ->
   fst (updateIntention (Some d) id updates w) = Hangs)
  /\ (get d id = Resolves found (stored :: others) ->
      (forall ms e, (forall doc, put d doc = Rejects ms e) ->
                    fst (updateIntention (Some d) id updates w) = Throws e)
      /\ ((forall doc, put d doc = Never) ->
          fst (updateIntention (Some d) id updates w) = Hangs)).
Proof.
  intros named. unfold updateIntention. rewrite named. simpl. split.
  - intros pending. unfold await. rewrite pending. run_async. reflexivity.
  - intros reads. unfold await, embedIntention. rewrite reads. split.
    + intros ms e refused. run_async.
      destruct (wants_reembedding updates); run_async;
        rewrite refused; reflexivity.
    + intros pending. run_async.
      destruct (wants_reembedding updates); run_async;
        rewrite pending; reflexivity.
Qed.

(** Completing an intention sets its status and stamps [completedAt] with
    the time of the call; archiving does the same with [archivedAt].
    Neither computes an embedding: title, description, embedding and
    [embeddedAt] of the returned record are the stored ones, and the store
    sees one lookup and one write. *)
Theorem complete_and_archive (d : Database) (id : string) (w : World)
    (stored : Intention) (others : list Intention) (found written : Z) :
  truthy id = true ->
  get d id = Resolves found (stored :: others) ->
  (forall doc, put d doc = Resolves written tt) ->
  (exists r w',
      completeIntention (Some d) id w = (Returns r, w')
      /\ status r = completed
      /\ completedAt r = Some (now w)
      /\ archivedAt r = archivedAt stored
      /\ updatedAt r = (now w + found)%Z
      /\ title r = title stored /\ description r = description stored
      /\ embedding r = embedding stored /\ embeddedAt r = embeddedAt stored
      /\ trace w' = (trace w ++ [EvStoreGet id; EvStorePut r])%list)
  /\ (exists r w',
        archiveIntention (Some d) id w = (Returns r, w')
        /\ status r = archived
        /\ archivedAt r = Some (now w)
        /\ completedAt r = completedAt stored
        /\ updatedAt r = (now w + found)%Z
        /\ title r = title stored /\ description r = description stored
        /\ embedding r = embedding stored /\ embeddedAt r = embeddedAt stored
        /\ trace w' = (trace w ++ [EvStoreGet id; EvStorePut r])%list).
Proof.
  intros named reads writes. split.
  - destruct (updateIntention_keeps_embedding d id
                (lifecycle_patch completed (Some (now w)) None) w stored others
                found written named reads eq_refl eq_refl (writes _))
      as (w' & run & stamped & kept & kept_at & events).
    eexists. exists w'. split; [exact run |].
    repeat split; try reflexivity; try exact events.
  - destruct (updateIntention_keeps_embedding d id
                (lifecycle_patch archived None (Some (now w))) w stored others
                found written named reads eq_refl eq_refl (writes _))
      as (w' & run & stamped & kept & kept_at & events).
    eexists. exists w'. split; [exact run |].
    repeat split; try reflexivity; try exact events.
Qed.
End Lifecycle.

(** Looking an intention up never throws: a rejected lookup, a missing
    record, a missing database and a missing id all give [null]; a lookup
    that resolves with records gives the first one.  It waits for ever
    only if the store lookup never settles. *)
Theorem getIntentionById_never_throws (database : option Database)
    (id : string) (w : World) :
  match fst (getIntentionById database id w) with
  | Returns answer =>
      answer =
      match database with
      | Some d =>
          if truthy id then
            match get d id with
            | Resolves _ (first :: _) => Some first
            | _ => None
            end
          else None
      | None => None
      end
  | Throws _ => False
  | Hangs => exists d, database = Some d /\ truthy id = true /\ get d id = Never
  end.
Proof.
  unfold getIntentionById. destruct database as [d |]; [| reflexivity].
  destruct (truthy id) eqn:named; [| reflexivity]. simpl.
  unfold await. run_async.
  destruct (get d id) as [ms [| first rest] | ms e |] eqn:looked; simpl;
    try reflexivity.
  exists d. repeat split; (reflexivity || exact looked).
Qed.

(** Deleting passes the store's answer on: one [del] is started, a
    rejection is thrown as it is, and there is no deadline. *)
Theorem deleteIntention_propagates (d : Database) (id : string) (w : World) :
  truthy id = true ->
  trace (snd (deleteIntention (Some d) id w)) = (trace w ++ [EvStoreDel id])%list
  /\ fst (deleteIntention (Some d) id w) =
     match del d id with
     | Resolves _ _ => Returns tt
     | Rejects _ e => Throws e
     | Never => Hangs
     end.
Proof.
  intros named. unfold deleteIntention. rewrite named. simpl.
  unfold await. run_async.
  destruct (del d id) as [ms [] | ms e |]; simpl; split; reflexivity.
Qed.

Lemma updateIntention_not_found_witness :
  exists w',
    @updateIntention sample_model (Some (sample_database Never [] Never))
      "int_9_z" no_updates sample_world
    = (Throws "Intention int_9_z not found", w').
Proof.
  destruct (@updateIntention_not_found sample_model
              (sample_database Never [] Never) "int_9_z" no_updates
              sample_world 5) as (missing & _).
  destruct (missing eq_refl eq_refl) as (w' & run & _).
  exists w'. exact run.
Defined.

Lemma updateIntention_unprotected_witness :
  fst (@updateIntention sample_model
         (Some (sample_database Never
                  [sample_intention "int_1_a" "first" "" 1 None None]
                  (Rejects 70 "write refused")))
         "int_1_a" no_updates sample_world)
  = Throws "write refused".
Proof.
  destruct (@updateIntention_unprotected sample_model
              (sample_database Never
                 [sample_intention "int_1_a" "first" "" 1 None None]
                 (Rejects 70 "write refused"))
              "int_1_a" no_updates sample_world
              (sample_intention "int_1_a" "first" "" 1 None None) [] 5 eq_refl)
    as (_ & existing).
  destruct (existing eq_refl) as (refused & _).
  apply (refused 70%Z). intros doc. reflexivity.
Defined.

Lemma complete_and_archive_witness :
  exists r w',
    @completeIntention sample_model
      (Some (sample_database Never
               [sample_intention "int_1_a" "first" "" 1 (Some [5; 1]) None]
               (Resolves 80 tt)))
      "int_1_a" sample_world = (Returns r, w')
    /\ status r = completed
    /\ embedding r = Some [5; 1].
Proof.
  destruct (@complete_and_archive sample_model
              (sample_database Never
                 [sample_intention "int_1_a" "first" "" 1 (Some [5; 1]) None]
                 (Resolves 80 tt))
              "int_1_a" sample_world
              (sample_intention "int_1_a" "first" "" 1 (Some [5; 1]) None)
              [] 5 80 eq_refl eq_refl (fun _ => eq_refl))
    as ((r & w' & run & done & _ & _ & _ & _ & _ & kept & _) & _).
  exists r, w'. repeat split; assumption.
Defined.

Lemma deleteIntention_propagates_witness :
  fst (deleteIntention
         (Some (sample_database Never [] Never)) "int_1_a" sample_world)
  = Returns tt.
Proof.
  destruct (deleteIntention_propagates (sample_database Never [] Never)
              "int_1_a" sample_world eq_refl) as (_ & outcome).
  exact outcome.
Defined.

(* ===================================================================== *)
(** * Statistics and filters                                              *)
(* ===================================================================== *)

(** The three status counts of [getIntentionStats] add up to the total,
    the three status filters split the list between them, and the count
    of located intentions does not exceed the total. *)
Theorem getIntentionStats_partition (intentions : list Intention) :
  let stats := getIntentionStats intentions in
  stats_total stats =
    (stats_active stats + stats_completed stats + stats_archived stats)%nat
  /\ (stats_withLocation stats <= stats_total stats)%nat
  /\ Permutation intentions
       (filterIntentionsByStatus intentions active
        ++ filterIntentionsByStatus intentions completed
        ++ filterIntentionsByStatus intentions archived).
Proof.
  unfold getIntentionStats, filterIntentionsByStatus. simpl.
  split; [| split].
  - induction intentions as [| i rest IH]; simpl; [reflexivity |].
    destruct (status i); simpl; lia.
  - apply filter_length_le.
  - induction intentions as [| i rest IH]; simpl; [constructor |].
    destruct (status i); simpl.
    + apply perm_skip. exact IH.
    + eapply perm_trans; [apply perm_skip; exact IH |].
      apply Permutation_middle.
    + eapply perm_trans; [apply perm_skip; exact IH |].
      rewrite app_assoc.
      eapply perm_trans; [apply Permutation_middle |].
      rewrite <- app_assoc. apply Permutation_refl.
Qed.

Lemma includes_In (wanted : list string) (tag : string) :
  includes wanted tag = true <-> In tag wanted.
Proof.
  unfold includes. rewrite existsb_exists. split.
  - intros (t & there & same). apply String.eqb_eq in same. subst. exact there.
  - intros there. exists tag. split; [exact there | apply String.eqb_refl].
Qed.

(** [filterIntentionsByTags] keeps exactly the intentions that carry at
    least one of the wanted tags, in their order: an empty list of wanted
    tags keeps nothing, and asking for more tags never loses a result. *)
Theorem filterIntentionsByTags_spec (intentions : list Intention) (wanted : list string) :
  (forall i,
      In i (filterIntentionsByTags intentions wanted) <->
      In i intentions /\ exists tag, In tag (tags i) /\ In tag wanted)
  /\ filterIntentionsByTags intentions [] = []
  /\ (forall more i,
        incl wanted more ->
        In i (filterIntentionsByTags intentions wanted) ->
        In i (filterIntentionsByTags intentions more)).
Proof.
  assert (kept : forall l i,
             In i (filterIntentionsByTags intentions l) <->
             In i intentions /\ exists tag, In tag (tags i) /\ In tag l).
  { intros l i. unfold filterIntentionsByTags. rewrite filter_In, existsb_exists.
    split; intros (there & tag & carried & asked); (split; [exact there |]);
      exists tag; (split; [exact carried |]); apply includes_In; exact asked. }
  split; [apply kept |]. split.
  - unfold filterIntentionsByTags.
    induction intentions as [| i rest IH]; simpl; [reflexivity |].
    assert (none : existsb (includes []) (tags i) = false).
    { clear. induction (tags i) as [| t ts IHt]; simpl; [reflexivity | exact IHt]. }
    rewrite none. apply IH.
    intros l j. unfold filterIntentionsByTags. rewrite filter_In, existsb_exists.
    split; intros (there & tag & carried & asked); (split; [exact there |]);
      exists tag; (split; [exact carried |]); apply includes_In; exact asked.
  - intros more i wider member. apply kept in member. apply kept.
    destruct member as (there & tag & carried & asked).
    split; [exact there |]. exists tag. split; [exact carried |].
    apply wider. exact asked.
Qed.

(** A run: asking for one more tag keeps the intention tagged [moving]. *)
Lemma filterIntentionsByTags_spec_witness :
  In (sample_tagged "int_1_a" ["moving"; "help-needed"])
     (filterIntentionsByTags
        [sample_tagged "int_1_a" ["moving"; "help-needed"]]
        ["furniture"; "moving"]).
Proof.
  destruct (filterIntentionsByTags_spec
              [sample_tagged "int_1_a" ["moving"; "help-needed"]] ["moving"])
    as (kept & _ & wider).
  apply (wider ["furniture"; "moving"]).
  - intros tag [<- | []]. right. left. reflexivity.
  - apply kept. split; [left; reflexivity |].
    exists "moving". split; left; reflexivity.
Defined.

(* ===================================================================== *)
(** * Batch embedding                                                     *)
(* ===================================================================== *)

Lemma extends_trace_refl (w : World) : extends_trace w w [].
Proof. unfold extends_trace. rewrite app_nil_r. repeat split. Qed.

Section Batch.
Context {E : EmbeddingModel}.

Lemma batch_loop_run (total : nat) (pending : list Intention) :
  forall (i : nat) (embedded : list Intention) (w : World),
  exists w',
    batch_loop None total i pending embedded w =
    (Returns (embedded ++ map (filled (now w)) pending)%list, w')
    /\ extends_trace w w'
         (map (fun x => EvEmbed (textToEmbed x)) (filter lacks_embedding pending)).
Proof.
  induction pending as [| x rest IH]; intros i embedded w.
  - exists w. simpl. rewrite app_nil_r. split; [reflexivity | apply extends_trace_refl].
  - cbn [batch_loop map filter].
    assert (shape : filled (now w) x =
                    match embedding x with
                    | Some _ => x
                    | None => with_embedding x (generateEmbedding (textToEmbed x)) (now w)
                    end) by reflexivity.
    assert (lacking : lacks_embedding x =
                      match embedding x with Some _ => false | None => true end)
      by reflexivity.
    rewrite shape, lacking. clear shape lacking.
    destruct (embedding x) as [e |].
    + destruct (IH (S i) (embedded ++ [x])%list w) as (w' & run & frame).
      exists w'. rewrite run, <- app_assoc. split; [reflexivity | exact frame].
    + destruct (IH (S i)
                  (embedded ++
                   [with_embedding x (generateEmbedding (textToEmbed x)) (now w)])%list
                  (logged w [EvEmbed (textToEmbed x)]))
        as (w' & run & frame).
      exists w'. split.
      * unfold logged in run. simpl in run.
        unfold embedIntention. run_async.
        rewrite run, <- app_assoc. reflexivity.
      * cbn [map].
        destruct frame as (f1 & f2 & f3 & f4 & f5 & f6 & f7 & f8).
        unfold extends_trace. simpl in *.
        rewrite <- app_assoc in f8. repeat split; assumption.
Qed.

Lemma filled_has_embedding (stamp : Z) (i : Intention) :
  embedding (filled stamp i) <> None.
Proof.
  unfold filled. destruct (embedding i) eqn:has; simpl; congruence.
Qed.

Lemma filled_twice (s t : Z) (l : list Intention) :
  map (filled t) (map (filled s) l) = map (filled s) l.
Proof.
  rewrite map_map. apply map_ext. intros i.
  unfold filled at 1. destruct (embedding (filled s i)) eqn:has; [reflexivity |].
  exfalso. exact (filled_has_embedding s i has).
Qed.

Lemma filled_none_lacking (s : Z) (l : list Intention) :
  filter lacks_embedding (map (filled s) l) = [].
Proof.
  induction l as [| i rest IH]; simpl; [reflexivity |].
  unfold lacks_embedding at 1.
  destruct (embedding (filled s i)) eqn:has; [exact IH |].
  exfalso. exact (filled_has_embedding s i has).
Qed.

(** [batchEmbedIntentions] returns one record per input, in order: an
    intention that has an embedding is passed through untouched, every
    other one gets the embedding of its own text.  The embedding
    capability is called once per intention that lacked an embedding and
    for no other.  Running the batch again on its result changes nothing
    and embeds nothing. *)
Theorem batchEmbedIntentions_fills (intentions : list Intention) (w : World) :
  exists out w',
    batchEmbedIntentions intentions None w = (Returns out, w')
    /\ out = map (filled (now w)) intentions
    /\ List.length out = List.length intentions
    /\ Forall (fun i => embedding i <> None) out
    /\ extends_trace w w'
         (map (fun x => EvEmbed (textToEmbed x))
              (filter lacks_embedding intentions))
    /\ exists w'',
         batchEmbedIntentions out None w' = (Returns out, w'')
         /\ extends_trace w' w'' [].
Proof.
  unfold batchEmbedIntentions.
  destruct (batch_loop_run (List.length intentions) intentions 0%nat [] w)
    as (w' & run & frame).
  simpl in run.
  exists (map (filled (now w)) intentions), w'.
  split; [exact run |]. split; [reflexivity |].
  split; [apply length_map |].
  split.
  { apply Forall_forall. intros i member. apply in_map_iff in member.
    destruct member as (x & <- & _). apply filled_has_embedding. }
  split; [exact frame |].
  destruct (batch_loop_run (List.length (map (filled (now w)) intentions))
              (map (filled (now w)) intentions) 0%nat [] w')
    as (w'' & again & still).
  simpl in again. rewrite filled_twice in again.
  rewrite filled_none_lacking in still.
  exists w''. split; [exact again | exact still].
Qed.

(** After a batch embedding a search does not fail and leaves no item out
    for want of an embedding, provided the embedding capability always
    returns vectors of one length and the embeddings already stored have
    that length. *)
Theorem search_after_batch {M : MathLib} (intentions : list Intention)
    (query : string) (o : SearchOptions) (w : World) :
  (forall s t, List.length (generateEmbedding s) = List.length (generateEmbedding t)) ->
  embeddings_fit (List.length (generateEmbedding query)) intentions ->
  exists out w' results,
    batchEmbedIntentions intentions None w = (Returns out, w')
    /\ searchIntentions query out o = Ok results
    /\ Forall (fun i => embedding i <> None) out
    /\ embeddings_fit (List.length (generateEmbedding query)) out.
Proof.
  intros uniform fits.
  destruct (batch_loop_run (List.length intentions) intentions 0%nat [] w)
    as (w' & run & _).
  simpl in run.
  assert (fit_out : embeddings_fit (List.length (generateEmbedding query))
                      (map (filled (now w)) intentions)).
  { unfold embeddings_fit in *. apply Forall_forall. intros i member.
    apply in_map_iff in member. destruct member as (x & <- & from).
    rewrite Forall_forall in fits. specialize (fits x from).
    unfold filled. destruct (embedding x) as [e |] eqn:has.
    - rewrite has. exact fits.
    - simpl. apply uniform. }
  destruct (map_result_total (score_intention o (generateEmbedding query))
              (map (filled (now w)) intentions)
              (score_intention_total o (generateEmbedding query) _ fit_out))
    as (scored & mapped).
  exists (map (filled (now w)) intentions), w'. eexists.
  split; [exact run |].
  split; [unfold searchIntentions; rewrite mapped; reflexivity |].
  split; [| exact fit_out].
  apply Forall_forall. intros i member. apply in_map_iff in member.
  destruct member as (x & <- & _). apply filled_has_embedding.
Qed.
End Batch.

(** A run: the sample items, one of them without embedding. *)
Lemma search_after_batch_witness :
  exists out w' results,
    @batchEmbedIntentions sample_model sample_items None sample_world
    = (Returns out, w')
    /\ @searchIntentions sample_math sample_model "help" out sample_options
       = Ok results.
Proof.
  destruct (@search_after_batch sample_model sample_math sample_items "help"
              sample_options sample_world)
    as (out & w' & results & batch & search & _).
  - intros s t. reflexivity.
  - unfold embeddings_fit, sample_items. repeat constructor.
  - exists out, w', results. split; assumption.
Defined.

(* ===================================================================== *)
(** * More on the search                                                  *)
(* ===================================================================== *)

Lemma map_result_throws {A B} (f : A -> Result B) (xs : list A) (message : string) :
  (forall x m, f x = Throw m -> m = message) ->
  (exists x, In x xs /\ f x = Throw message) ->
  map_result f xs = Throw message.
Proof.
  intros only (x & member & thrown).
  induction xs as [| y rest IH]; [contradiction |]. simpl.
  destruct (f y) as [v |] eqn:head.
  - destruct member as [-> | member]; [congruence |].
    rewrite (IH member). reflexivity.
  - f_equal. eapply only. exact head.
Qed.

Section SearchEdges.
Context {M : MathLib} {E : EmbeddingModel}.

Lemma score_intention_message (o : SearchOptions) (q : list Q) (i : Intention) (m : string) :
  score_intention o q i = Throw m -> m = "Vectors must have same length".
Proof.
  unfold score_intention, cosineSimilarity.
  destruct (embedding i) as [e |]; [| discriminate].
  destruct (negb (List.length q =? List.length e)%nat).
  - intros thrown. injection thrown as <-. reflexivity.
  - destruct (cosine_sums q e) as [[d na] nb]. discriminate.
Qed.

(** One item whose embedding has another length than the query vector
    makes the whole search fail with the length error, whatever the other
    items and the options are: such an item is not skipped the way an
    item without embedding is. *)
Theorem searchIntentions_length_mismatch (query : string)
    (intentions : list Intention) (o : SearchOptions) (i : Intention) (e : list Q) :
  In i intentions -> embedding i = Some e ->
  List.length e <> List.length (generateEmbedding query) ->
  searchIntentions query intentions o = Throw "Vectors must have same length".
Proof.
  intros member embedded differs. unfold searchIntentions.
  rewrite (map_result_throws _ _ "Vectors must have same length");
    [reflexivity | intros x m; apply score_intention_message |].
  exists i. split; [exact member |].
  unfold score_intention, cosineSimilarity. rewrite embedded.
  assert (unequal : (List.length (generateEmbedding query) =? List.length e)%nat = false).
  { apply Nat.eqb_neq. congruence. }
  rewrite unequal. reflexivity.
Qed.

(** The entries a search ranks, before sorting and cutting. *)
Lemma kept_entries_without_unembedded (o : SearchOptions) (q : list Q)
    (intentions : list Intention) :
  match map_result (score_intention o q) (filter has_embedding intentions),
        map_result (score_intention o q) intentions with
  | Ok scored, Ok scored' =>
      present (filter (keep_result o) scored) =
      present (filter (keep_result o) scored')
  | Throw m, Throw m' => m = m'
  | _, _ => False
  end.
Proof.
  induction intentions as [| i rest IH]; simpl; [reflexivity |].
  unfold has_embedding at 1.
  destruct (embedding i) as [e |] eqn:embedded; simpl.
  - destruct (score_intention o q i) as [r |] eqn:scored.
    + destruct (map_result (score_intention o q) (filter has_embedding rest)),
        (map_result (score_intention o q) rest); try contradiction.
      * simpl. destruct (keep_result o r); [| exact IH].
        destruct r as [r |]; simpl; [rewrite IH; reflexivity | exact IH].
      * exact IH.
    + reflexivity.
  - assert (skipped : score_intention o q i = Ok None)
      by (unfold score_intention; rewrite embedded; reflexivity).
    rewrite skipped.
    destruct (map_result (score_intention o q) (filter has_embedding rest)),
      (map_result (score_intention o q) rest); try contradiction.
    + simpl. exact IH.
    + exact IH.
Qed.

(** Items without embedding have no influence on a search: removing them
    from the input beforehand gives the same outcome, result for result
    or error for error. *)
Theorem searchIntentions_ignores_unembedded (query : string)
    (intentions : list Intention) (o : SearchOptions) :
  searchIntentions query (filter has_embedding intentions) o =
  searchIntentions query intentions o.
Proof.
  unfold searchIntentions.
  pose proof (kept_entries_without_unembedded o (generateEmbedding query)
                intentions) as same.
  destruct (map_result _ (filter has_embedding intentions)),
    (map_result _ intentions); try contradiction.
  - rewrite same. reflexivity.
  - rewrite same. reflexivity.
Qed.
End SearchEdges.

(** A run: an embedding of three components against the two of the
    sample model. *)
Lemma searchIntentions_length_mismatch_witness :
  @searchIntentions sample_math sample_model "help"
    (sample_items ++
     [sample_intention "int_4_d" "Odd one" "" 4 (Some [1; 2; 3]) None])
    sample_options
  = Throw "Vectors must have same length".
Proof.
  apply (@searchIntentions_length_mismatch sample_math sample_model "help" _ _
           (sample_intention "int_4_d" "Odd one" "" 4 (Some [1; 2; 3]) None)
           [1; 2; 3]).
  - apply in_or_app. right. left. reflexivity.
  - reflexivity.
  - simpl. discriminate.
Defined.

(* ===================================================================== *)
(** * Cosine similarity: symmetry, a vector against itself                *)
(* ===================================================================== *)

Lemma same_number_refl (x : number) : same_number x x.
Proof. destruct x; simpl; trivial. reflexivity. Qed.

(** Swapping the two vectors swaps the two norms and keeps the dot
    product. *)
Lemma cosine_sums_swap (l : list (Q * Q)) (d na nb d' : Q) :
  d == d' ->
  let '(x, xa, xb) := fold_left cosine_step l (d, na, nb) in
  let '(y, ya, yb) :=
    fold_left cosine_step (map (fun ab => (snd ab, fst ab)) l) (d', nb, na) in
  x == y /\ xa = yb /\ xb = ya.
Proof.
  revert d na nb d'.
  induction l as [| [a b] rest IH]; intros d na nb d' same; simpl.
  - repeat split. exact same.
  - apply IH. rewrite same. ring.
Qed.

Lemma combine_swap (vecA vecB : list Q) :
  combine vecB vecA = map (fun ab => (snd ab, fst ab)) (combine vecA vecB).
Proof.
  revert vecB. induction vecA as [| a restA IH]; intros [| b restB]; simpl;
    try reflexivity.
  rewrite IH. reflexivity.
Qed.

Lemma ndiv_same (a a' b b' : Q) :
  a == a' -> b == b' -> same_number (ndiv (Fin a) (Fin b)) (ndiv (Fin a') (Fin b')).
Proof.
  intros sa sb. simpl.
  assert (zero : Qeq_bool b 0 = Qeq_bool b' 0).
  { destruct (Qeq_bool b 0) eqn:z; destruct (Qeq_bool b' 0) eqn:z'; try reflexivity.
    - apply Qeq_bool_iff in z. assert (b' == 0) by (rewrite <- sb; exact z).
      apply Qeq_bool_iff in H. congruence.
    - apply Qeq_bool_iff in z'. assert (b == 0) by (rewrite sb; exact z').
      apply Qeq_bool_iff in H. congruence. }
  rewrite <- zero. destruct (Qeq_bool b 0) eqn:z.
  - assert (sign : Qcompare a 0 = Qcompare a' 0) by (rewrite sa; reflexivity).
    rewrite sign. apply same_number_refl.
  - simpl. rewrite sa, sb. reflexivity.
Qed.

Section CosineFacts.
Context {M : MathLib}.

(** [cosineSimilarity] is symmetric: the two orders of the arguments give
    the same number, the same [NaN] or the same error. *)
Theorem cosineSimilarity_symmetric (vecA vecB : list Q) :
  match cosineSimilarity vecA vecB, cosineSimilarity vecB vecA with
  | Ok x, Ok y => same_number x y
  | Throw m, Throw m' => m = m'
  | _, _ => False
  end.
Proof.
  unfold cosineSimilarity.
  rewrite (Nat.eqb_sym (List.length vecB) (List.length vecA)).
  destruct (List.length vecA =? List.length vecB)%nat; cbn [negb];
    [| reflexivity].
  unfold cosine_sums. rewrite (combine_swap vecA vecB).
  pose proof (cosine_sums_swap (combine vecA vecB) 0 0 0 0 (Qeq_refl 0)) as swap.
  destruct (fold_left cosine_step (combine vecA vecB) (0, 0, 0)) as [[d na] nb].
  destruct (fold_left cosine_step
              (map (fun ab => (snd ab, fst ab)) (combine vecA vecB)) (0, 0, 0))
    as [[d' na'] nb'].
  destruct swap as (dot & -> & ->).
  destruct (Math_sqrt (Fin nb')) as [s | | |] eqn:rootB;
    destruct (Math_sqrt (Fin na')) as [t | | |] eqn:rootA;
    try exact I;
    try (simpl in rootA, rootB;
         destruct (Qle_bool 0 na'), (Qle_bool 0 nb'); discriminate).
  cbn [nmul]. apply ndiv_same; [exact dot | ring].
Qed.

(** The sums the loop computes for a vector against itself. *)
Lemma cosine_sums_self (v : list Q) (d na nb : Q) :
  d == na -> nb = na ->
  let '(x, xa, xb) := fold_left cosine_step (combine v v) (d, na, nb) in
  x == xa /\ xb = xa.
Proof.
  revert d na nb. induction v as [| a rest IH]; intros d na nb same ->; simpl.
  - split; [exact same | reflexivity].
  - apply IH; [rewrite same; reflexivity | reflexivity].
Qed.

Lemma cosine_sums_norm (v : list Q) (d na nb : Q) :
  let '(_, xa, _) := fold_left cosine_step (combine v v) (d, na, nb) in
  xa == na + norm_sq v.
Proof.
  revert d na nb. induction v as [| a rest IH]; intros d na nb; simpl.
  - ring.
  - specialize (IH (d + a * a) (na + a * a) (nb + a * a)).
    destruct (fold_left cosine_step (combine rest rest)
                (d + a * a, na + a * a, nb + a * a)) as [[x xa] xb].
    rewrite IH. ring.
Qed.

(** A vector that is not zero has cosine similarity 1 with itself,
    provided the square root of its squared norm is exact, that is, its
    square is the squared norm again. *)
Theorem cosineSimilarity_self (v : list Q) :
  ~ norm_sq v == 0 ->
  (forall n, n == norm_sq v -> sqrt_fin n * sqrt_fin n == n) ->
  exists c, cosineSimilarity v v = Ok (Fin c) /\ c == 1.
Proof.
  intros nonzero exact. unfold cosineSimilarity.
  rewrite Nat.eqb_refl. cbn [negb]. unfold cosine_sums.
  pose proof (cosine_sums_self v 0 0 0 (Qeq_refl 0) eq_refl) as self.
  pose proof (cosine_sums_norm v 0 0 0) as norm.
  destruct (fold_left cosine_step (combine v v) (0, 0, 0)) as [[d na] nb].
  destruct self as (dot & ->).
  assert (value : na == norm_sq v) by (rewrite norm; ring).
  pose proof (norm_sq_nonneg v) as nonneg.
  assert (le : Qle_bool 0 na = true) by (apply Qle_bool_iff; lra).
  simpl. rewrite le. simpl.
  pose proof (exact na value) as root.
  assert (divisor : Qeq_bool (sqrt_fin na * sqrt_fin na) 0 = false).
  { destruct (Qeq_bool (sqrt_fin na * sqrt_fin na) 0) eqn:z; [| reflexivity].
    apply Qeq_bool_iff in z. exfalso. apply nonzero. lra. }
  rewrite divisor. eexists. split; [reflexivity |].
  rewrite root, dot. field. lra.
Qed.
End CosineFacts.

(** A run: the vector [3, 4], whose norm is 5. *)
Lemma cosineSimilarity_self_witness :
  exists c, @cosineSimilarity sample_math [3; 4] [3; 4] = Ok (Fin c) /\ c == 1.
Proof.
  apply (@cosineSimilarity_self sample_math [3; 4]).
  - intros zero. vm_compute in zero. discriminate.
  - intros [n dn] value. unfold Qeq in value. simpl in value.
    assert (n = (25 * Zpos dn)%Z) by lia. subst n. clear value.
    unfold Qeq, sample_math, sqrt_fin. cbn [Qnum Qden Qmult].
    replace (25 * Z.pos dn * Z.pos dn * 1000000)%Z
      with ((5000 * Z.pos dn) * (5000 * Z.pos dn))%Z by ring.
    rewrite Z.sqrt_square by lia.
    rewrite !Pos2Z.inj_mul. ring.
Defined.

(* ===================================================================== *)
(** * Card sizes and geo scores over their whole range                    *)
(* ===================================================================== *)

Lemma card_of_score (s bw : Q) :
  calculateCardDimensions (Fin s) (Some (Fin bw)) =
  {| width := Fin (inject_Z (Qfloor (bw * ((1 # 2) + s * (1 # 2)) + (1 # 2))));
     height :=
       Fin (inject_Z
              (Qfloor
                 (inject_Z (Qfloor (bw * ((1 # 2) + s * (1 # 2)) + (1 # 2)))
                  / PHI + (1 # 2)))) |}.
Proof. reflexivity. Qed.

Lemma over_PHI_monotone (a b : Q) : a <= b -> a / PHI <= b / PHI.
Proof.
  intros le. unfold Qdiv. apply Qmult_le_compat_r; [exact le |].
  unfold PHI, Qinv, Qle. simpl. lia.
Qed.

(** A better score never gives a smaller card: for a base width that is
    not negative, width and height do not decrease when the score grows.
    On the default base width a score between 0 and 1 gives a width
    between 160 and 320 and a height between 99 and 198. *)
Theorem cardDimensions_grow (s1 s2 bw : Q) :
  0 <= bw -> s1 <= s2 ->
  exists w1 h1 w2 h2 : Z,
    calculateCardDimensions (Fin s1) (Some (Fin bw)) =
      {| width := Fin (inject_Z w1); height := Fin (inject_Z h1) |}
    /\ calculateCardDimensions (Fin s2) (Some (Fin bw)) =
      {| width := Fin (inject_Z w2); height := Fin (inject_Z h2) |}
    /\ (w1 <= w2)%Z /\ (h1 <= h2)%Z
    /\ (0 <= s1 -> s2 <= 1 -> bw == 320 ->
        (160 <= w1)%Z /\ (w2 <= 320)%Z /\ (99 <= h1)%Z /\ (h2 <= 198)%Z).
Proof.
  intros wide better. rewrite !card_of_score.
  set (x1 := bw * ((1 # 2) + s1 * (1 # 2)) + (1 # 2)).
  set (x2 := bw * ((1 # 2) + s2 * (1 # 2)) + (1 # 2)).
  assert (x12 : x1 <= x2) by (unfold x1, x2; nra).
  assert (w12 : (Qfloor x1 <= Qfloor x2)%Z) by (apply Qfloor_resp_le; exact x12).
  assert (h12 : (Qfloor (inject_Z (Qfloor x1) / PHI + (1 # 2))
                 <= Qfloor (inject_Z (Qfloor x2) / PHI + (1 # 2)))%Z).
  { apply Qfloor_resp_le.
    assert (inject_Z (Qfloor x1) / PHI <= inject_Z (Qfloor x2) / PHI).
    { apply over_PHI_monotone. rewrite <- Zle_Qle. exact w12. }
    lra. }
  exists (Qfloor x1), (Qfloor (inject_Z (Qfloor x1) / PHI + (1 # 2))),
    (Qfloor x2), (Qfloor (inject_Z (Qfloor x2) / PHI + (1 # 2))).
  split; [reflexivity |]. split; [reflexivity |].
  split; [exact w12 |]. split; [exact h12 |].
  intros low high default.
  assert (lo : (160 <= Qfloor x1)%Z).
  { change 160%Z with (Qfloor (inject_Z 160)).
    apply Qfloor_resp_le. unfold x1. rewrite default. unfold inject_Z. nra. }
  assert (hi : (Qfloor x2 <= 320)%Z).
  { change 320%Z with (Qfloor ((641 # 2))).
    apply Qfloor_resp_le. unfold x2. rewrite default. nra. }
  split; [exact lo |]. split; [exact hi |]. split.
  - change 99%Z with (Qfloor (inject_Z 160 / PHI + (1 # 2))).
    apply Qfloor_resp_le.
    assert (inject_Z 160 / PHI <= inject_Z (Qfloor x1) / PHI).
    { apply over_PHI_monotone. rewrite <- Zle_Qle. exact lo. }
    lra.
  - change 198%Z with (Qfloor (inject_Z 320 / PHI + (1 # 2))).
    apply Qfloor_resp_le.
    assert (inject_Z (Qfloor x2) / PHI <= inject_Z 320 / PHI).
    { apply over_PHI_monotone. rewrite <- Zle_Qle. exact hi. }
    lra.
Qed.

(** A run: scores 1/4 and 3/4 on the default base width. *)
Lemma cardDimensions_grow_witness :
  exists w1 h1 w2 h2 : Z,
    calculateCardDimensions (Fin (1 # 4)) (Some (Fin 320)) =
      {| width := Fin (inject_Z w1); height := Fin (inject_Z h1) |}
    /\ calculateCardDimensions (Fin (3 # 4)) (Some (Fin 320)) =
      {| width := Fin (inject_Z w2); height := Fin (inject_Z h2) |}
    /\ (w1 <= w2)%Z /\ (h1 <= h2)%Z.
Proof.
  destruct (cardDimensions_grow (1 # 4) (3 # 4) 320)
    as (w1 & h1 & w2 & h2 & first & second & wider & higher & _).
  - unfold Qle. simpl. lia.
  - unfold Qle. simpl. lia.
  - exists w1, h1, w2, h2. repeat split; assumption.
Defined.

(** The geo score under any positive maximum distance: for a distance
    that is not negative it is [max(0, 1 - d/m)], lies between 0 and 1,
    is 1 at distance 0 and is 0 exactly from the maximum on.  A maximum of
    0 gives 0 for a positive distance and [NaN] for distance 0. *)
Theorem normalizeGeoScore_any_maximum (d m : Q) :
  0 <= d ->
  (0 < m ->
   exists s,
     normalizeGeoScore (Fin d) (Some (Fin m)) = Fin s
     /\ 0 <= s <= 1
     /\ (d == 0 -> s == 1)
     /\ (s == 0 <-> m <= d))
  /\ (m == 0 ->
      (0 < d -> normalizeGeoScore (Fin d) (Some (Fin m)) = Fin 0)
      /\ (d == 0 -> normalizeGeoScore (Fin d) (Some (Fin m)) = NaN)).
Proof.
  intros far. split.
  - intros positive.
    assert (divisor : Qeq_bool m 0 = false).
    { destruct (Qeq_bool m 0) eqn:z; [| reflexivity].
      apply Qeq_bool_iff in z. lra. }
    assert (ratio : 0 <= d / m) by (apply Qle_shift_div_l; lra).
    assert (whole : d / m <= 1 <-> d <= m).
    { split; intros le.
      - assert (d == d / m * m) by (field; lra). nra.
      - apply Qle_shift_div_r; lra. }
    unfold normalizeGeoScore. cbn [or_default nstrict_eq ndiv].
    rewrite divisor. cbn [nsub nneg nadd Math_max].
    destruct (Qle_bool 0 (1 + - (d / m))) eqn:near.
    + apply Qle_bool_iff in near. eexists. split; [reflexivity |].
      split; [split; lra |]. split.
      * intros zero. assert (d / m == 0) by (rewrite zero; field; lra). lra.
      * split; intros edge.
        -- assert (1 <= d / m) by lra.
           assert (d == d / m * m) by (field; lra). nra.
        -- assert (1 <= d / m) by (apply Qle_shift_div_l; lra). lra.
    + assert (beyond : ~ 0 <= 1 + - (d / m))
        by (rewrite <- Qle_bool_iff; congruence).
      eexists. split; [reflexivity |].
      split; [split; lra |]. split.
      * intros zero. assert (d / m == 0) by (rewrite zero; field; lra). lra.
      * split; intros _; [| reflexivity].
        apply Qnot_le_lt in beyond.
        assert (~ d / m <= 1) by lra.
        apply Qlt_le_weak, Qnot_le_lt. intros le. apply H, whole. exact le.
  - intros none.
    assert (divisor : Qeq_bool m 0 = true) by (apply Qeq_bool_iff; exact none).
    unfold normalizeGeoScore. cbn [or_default nstrict_eq ndiv].
    rewrite divisor. split.
    + intros positive.
      assert (sign : Qcompare d 0 = Gt) by (apply Qgt_alt; exact positive).
      rewrite sign. reflexivity.
    + intros zero.
      assert (sign : Qcompare d 0 = Eq) by (apply Qeq_alt; exact zero).
      rewrite sign. reflexivity.
Qed.

(** A run: 30 km under a maximum of 40 km. *)
Lemma normalizeGeoScore_any_maximum_witness :
  exists s, normalizeGeoScore (Fin 30) (Some (Fin 40)) = Fin s /\ 0 <= s <= 1.
Proof.
  destruct (normalizeGeoScore_any_maximum 30 40) as (within & _).
  - unfold Qle. simpl. lia.
  - destruct within as (s & value & range & _).
    + unfold Qlt. simpl. lia.
    + exists s. split; assumption.
Defined.

(* ===================================================================== *)
(** * The magic link, written and read                                    *)
(* ===================================================================== *)

Lemma percent_decode_plain (c : ascii) (tail : string) :
  Ascii.eqb c "%" = false ->
  percent_decode (String c tail) = String c (percent_decode tail).
Proof.
  intros plain. destruct tail as [| h [| l rest]]; try reflexivity.
  cbn [percent_decode]. rewrite plain. reflexivity.
Qed.

Lemma percent_decode_escape (c : ascii) (rest : string) :
  is_unreserved c = false ->
  percent_decode
    (String "%"
       (String (hex_digit (N_of_ascii c / 16))
          (String (hex_digit (N_of_ascii c mod 16)) rest)))
  = String c (percent_decode rest).
Proof.
  destruct c as [[] [] [] [] [] [] [] []]; intros reserved;
    try discriminate reserved; reflexivity.
Qed.

Lemma unreserved_plain (c : ascii) :
  is_unreserved c = true ->
  Ascii.eqb c "%" = false /\ Ascii.eqb c "+" = false /\ Ascii.eqb c "&" = false
  /\ Ascii.eqb c "=" = false /\ Ascii.eqb c "#" = false /\ Ascii.eqb c "?" = false.
Proof.
  destruct c as [[] [] [] [] [] [] [] []]; intros free;
    try discriminate free; repeat split; reflexivity.
Qed.

Lemma hex_digit_unreserved (c : ascii) :
  is_unreserved (hex_digit (N_of_ascii c / 16)) = true
  /\ is_unreserved (hex_digit (N_of_ascii c mod 16)) = true.
Proof.
  destruct c as [[] [] [] [] [] [] [] []]; split; reflexivity.
Qed.

Lemma percent_decode_encoded (s : string) :
  percent_decode (encodeURIComponent s) = s.
Proof.
  induction s as [| c rest IH]; [reflexivity |]. cbn [encodeURIComponent].
  destruct (is_unreserved c) eqn:free.
  - rewrite percent_decode_plain, IH; [reflexivity |].
    apply unreserved_plain. exact free.
  - rewrite percent_decode_escape, IH; [reflexivity | exact free].
Qed.

Lemma encoded_chars (s : string) :
  all_chars is_encoded_char (encodeURIComponent s) = true.
Proof.
  induction s as [| c rest IH]; [reflexivity |]. cbn [encodeURIComponent].
  destruct (is_unreserved c) eqn:free; cbn [all_chars].
  - unfold is_encoded_char at 1. rewrite free, IH. reflexivity.
  - destruct (hex_digit_unreserved c) as [high low].
    unfold is_encoded_char at 1 2 3. rewrite high, low, IH. reflexivity.
Qed.

Lemma encoded_char_plain (c : ascii) :
  is_encoded_char c = true ->
  Ascii.eqb c "+" = false /\ Ascii.eqb c "&" = false
  /\ Ascii.eqb c "=" = false /\ Ascii.eqb c "#" = false /\ Ascii.eqb c "?" = false.
Proof.
  destruct c as [[] [] [] [] [] [] [] []]; intros free;
    try discriminate free; repeat split; reflexivity.
Qed.

Lemma plus_to_space_encoded (s : string) :
  all_chars is_encoded_char s = true -> plus_to_space s = s.
Proof.
  induction s as [| c rest IH]; [reflexivity |]. cbn [all_chars plus_to_space].
  intros chars. apply andb_true_iff in chars. destruct chars as [head tail].
  destruct (encoded_char_plain c head) as (plus & _).
  rewrite plus, (IH tail). reflexivity.
Qed.

Lemma split_on_absent (sep : ascii) (s : string) :
  contains_char sep s = false -> split_on sep s = [s].
Proof.
  induction s as [| c rest IH]; [reflexivity |]. cbn [contains_char split_on].
  intros absent. apply orb_false_iff in absent. destruct absent as [head tail].
  rewrite (IH tail), head. reflexivity.
Qed.

Lemma cut_at_absent (sep : ascii) (s : string) :
  contains_char sep s = false -> cut_at sep s = (s, None).
Proof.
  induction s as [| c rest IH]; [reflexivity |]. cbn [contains_char cut_at].
  intros absent. apply orb_false_iff in absent. destruct absent as [head tail].
  rewrite head, (IH tail). reflexivity.
Qed.

Lemma cut_at_first (sep : ascii) (before after : string) :
  contains_char sep before = false ->
  cut_at sep (before ++ String sep after) = (before, Some after).
Proof.
  induction before as [| c rest IH]; cbn [contains_char cut_at append].
  - intros _. rewrite Ascii.eqb_refl. reflexivity.
  - intros absent. apply orb_false_iff in absent. destruct absent as [head tail].
    rewrite head, (IH tail). reflexivity.
Qed.

Lemma contains_char_app (c : ascii) (s t : string) :
  contains_char c (s ++ t) = contains_char c s || contains_char c t.
Proof.
  induction s as [| x rest IH]; [reflexivity |]. cbn [append contains_char].
  rewrite IH. apply orb_assoc.
Qed.

Lemma encoded_without (c : ascii) (s : string) :
  (forall x, is_encoded_char x = true -> Ascii.eqb x c = false) ->
  all_chars is_encoded_char s = true -> contains_char c s = false.
Proof.
  intros other. induction s as [| x rest IH]; [reflexivity |].
  cbn [all_chars contains_char]. intros chars.
  apply andb_true_iff in chars. destruct chars as [head tail].
  rewrite (other x head), (IH tail). reflexivity.
Qed.

(** A link written by [generateMagicLink] is read back by the join as the
    very address it was written for, whatever characters the address
    holds: the query string of the link has a [db] parameter whose decoded
    value is the address and no [peers] parameter, so that
    [getDatabaseAddressFromURL] returns the address when it is not empty.
    The base URL is origin and path, without [?] and [#]. *)
Theorem magic_link_round_trip (baseURL databaseAddress : string) :
  contains_char "?" baseURL = false ->
  contains_char "#" baseURL = false ->
  let params :=
    URLSearchParams (location_search (generateMagicLink baseURL databaseAddress)) in
  params_get "db" params = Some databaseAddress
  /\ params_get "peers" params = None
  /\ forall w,
       url_db w = params_get "db" params ->
       truthy databaseAddress = true ->
       getDatabaseAddressFromURL w = (Returns (Some databaseAddress), w).
Proof.
  intros no_query no_fragment params.
  pose proof (encoded_chars databaseAddress) as chars.
  assert (read : params = [("db", databaseAddress)]).
  { subst params. unfold generateMagicLink, location_search.
    assert (whole : contains_char "#" (baseURL ++ "?db=" ++ encodeURIComponent databaseAddress) = false).
    { rewrite contains_char_app, no_fragment. cbn [append contains_char orb].
      apply encoded_without; [| exact chars].
      intros x safe. apply encoded_char_plain. exact safe. }
    rewrite (cut_at_absent _ _ whole). cbn [fst].
    change (baseURL ++ "?db=" ++ encodeURIComponent databaseAddress)
      with (baseURL ++ String "?" ("db=" ++ encodeURIComponent databaseAddress)).
    rewrite (cut_at_first _ _ _ no_query). cbn [snd append truthy].
    unfold URLSearchParams.
    assert (piece : split_on "&" (String "d" (String "b" (String "=" (encodeURIComponent databaseAddress))))
                    = [String "d" (String "b" (String "=" (encodeURIComponent databaseAddress)))]).
    { apply split_on_absent. cbn [contains_char].
      change (Ascii.eqb "d" "&") with false. change (Ascii.eqb "b" "&") with false.
      change (Ascii.eqb "=" "&") with false. cbn [orb].
      apply encoded_without; [| exact chars].
      intros x safe. apply encoded_char_plain. exact safe. }
    rewrite piece. cbn [filter truthy map cut_at].
    change (Ascii.eqb "d" "=") with false. change (Ascii.eqb "b" "=") with false.
    change (Ascii.eqb "=" "=") with true. cbv iota beta.
    cbn [or_default]. unfold form_decode.
    rewrite (plus_to_space_encoded _ chars), percent_decode_encoded.
    reflexivity. }
  rewrite read. split; [reflexivity |]. split; [reflexivity |].
  intros w linked nonempty. unfold getDatabaseAddressFromURL.
  cbv [bind get_world ret]. rewrite linked. cbn [params_get String.eqb].
  simpl. rewrite nonempty. reflexivity.
Qed.

(** A run: an OrbitDB address on the application's page. *)
Lemma magic_link_round_trip_witness :
  params_get "db"
    (URLSearchParams
       (location_search
          (generateMagicLink "https://syncengine.earth/app/"
             "/orbitdb/zdpuAkstore")))
  = Some "/orbitdb/zdpuAkstore".
Proof.
  destruct (magic_link_round_trip "https://syncengine.earth/app/"
              "/orbitdb/zdpuAkstore" eq_refl eq_refl) as (read & _).
  exact read.
Defined.

(* ===================================================================== *)
(** * The peers parameter                                                 *)
(* ===================================================================== *)











(** The peers parameter is decoded before the join enters any [try]: a
    parameter that cannot be decoded makes the join throw the decoding
    error at once, with or without invitation address and remembered
    address; nothing is opened or dialed, and the link and the remembered
    address stay as they were. *)
Theorem malformed_peers_stop_join (orbitdb : OrbitDB)
    (libp2p : option Libp2p) (w : World) (peersParam m : string) :
  url_peers w = Some peersParam ->
  decodeURIComponent peersParam = Throw m ->
  openIntentionsDatabase orbitdb libp2p w = (Throws m, w).
Proof.
  intros linked malformed. apply openIntentionsDatabase_malformed.
  unfold peers_of_param, multiaddrs_of_param. rewrite linked, malformed.
  destruct peersParam; [discriminate | reflexivity].
Qed.

(** Three runs behind an invitation link: a stray percent sign, an escape
    that is not hexadecimal and an escaped byte that starts no UTF-8
    sequence. *)
Lemma malformed_peers_stop_join_witness :
  let orbitdb := sample_orbitdb (Resolves 100 (sample_database Never [] Never)) in
  let linked := fun peersParam =>
    sample_world_with [] None (Some "/orbitdb/invited") (Some peersParam) in
  openIntentionsDatabase orbitdb None (linked "/ip4/10.0.0.2%")
  = (Throws "URI malformed", linked "/ip4/10.0.0.2%")
  /\ openIntentionsDatabase orbitdb None (linked "%zz")
     = (Throws "URI malformed", linked "%zz")
  /\ openIntentionsDatabase orbitdb None (linked "%80")
     = (Throws "URI malformed", linked "%80").
Proof.
  intros orbitdb linked.
  split; [| split].
  - apply (malformed_peers_stop_join orbitdb None (linked "/ip4/10.0.0.2%")
             "/ip4/10.0.0.2%" "URI malformed"); reflexivity.
  - apply (malformed_peers_stop_join orbitdb None (linked "%zz")
             "%zz" "URI malformed"); reflexivity.
  - apply (malformed_peers_stop_join orbitdb None (linked "%80")
             "%80" "URI malformed"); reflexivity.
Defined.

(* ===================================================================== *)
(** * The variant without cache                                           *)
(* ===================================================================== *)

(** In the variant without cache a failed read is not absorbed: the store
    read is raced against 10 s, and [loadIntentions] returns the stored
    values newest first when the read resolves in time and throws
    otherwise; the cache is never touched. *)
Theorem direct_loadIntentions_propagates (d : Database) (w : World) :
  let run := DirectAdapter.loadIntentions (Some d) w in
  cache_store (snd run) = cache_store w
  /\ trace (snd run) = (trace w ++ [EvStoreAll])%list
  /\ match fst run with
     | Returns l =>
         exists ms entries,
           all d = Resolves ms entries /\ (ms < 10000)%Z
           /\ l = js_sort by_createdAt_desc (map value entries)
           /\ newest_first l
     | Throws _ => resolves_before (all d) 10000 = false
     | Hangs => False
     end.
Proof.
  unfold DirectAdapter.loadIntentions. run_async. unfold race_timeout.
  destruct (all d) as [ms entries | ms e |]; simpl.
  - destruct (ms <? 10000)%Z eqn:fast; simpl.
    + repeat split. exists ms, entries. apply Z.ltb_lt in fast.
      repeat split; [exact fast | apply createdAt_sorted].
    + repeat split.
  - destruct (ms <? 10000)%Z; simpl; repeat split.
  - repeat split.
Qed.

Section DirectCreate.
Context {E : EmbeddingModel}.

(** In the variant without cache, creating an intention stands and falls
    with the store write: the record is embedded and written, and the call
    returns it when the write resolves, throws the store's error when the
    write is rejected and waits for ever when the write never settles.
    Nothing is cached. *)
Theorem direct_createIntention_depends_on_store (d : Database)
    (data : IntentionData) (w : World) :
  title_missing data = false ->
  exists r,
    title r = trim (or_default (data_title data) "")
    /\ embedding r = Some (generateEmbedding (textToEmbed r))
    /\ fst (DirectAdapter.createIntention (Some d) data w) =
       match put d r with
       | Resolves _ _ => Returns r
       | Rejects _ e => Throws e
       | Never => Hangs
       end
    /\ trace (snd (DirectAdapter.createIntention (Some d) data w)) =
       (trace w ++ [EvEmbed (textToEmbed r); EvStorePut r])%list
    /\ cache_store (snd (DirectAdapter.createIntention (Some d) data w)) =
       cache_store w.
Proof.
  intros present. unfold DirectAdapter.createIntention. rewrite present.
  unfold embedIntention, await. run_async.
  lazymatch goal with |- context [put d ?record] => exists record end.
  split; [reflexivity |]. split; [reflexivity |].
  destruct (put d _) as [ms [] | ms e |]; simpl;
    rewrite <- ?app_assoc; repeat split; reflexivity.
Qed.
End DirectCreate.

(** A run: the store refuses the write. *)
Lemma direct_createIntention_depends_on_store_witness :
  exists message,
    fst (@DirectAdapter.createIntention sample_model
           (Some (sample_database Never [] (Rejects 70 "write refused")))
           (sample_data "Help moving") sample_world)
    = Throws message.
Proof.
  destruct (@direct_createIntention_depends_on_store sample_model
              (sample_database Never [] (Rejects 70 "write refused"))
              (sample_data "Help moving") sample_world eq_refl)
    as (r & _ & _ & outcome & _).
  exists "write refused". exact outcome.
Defined.

(* ===================================================================== *)
(** * From the form to the record                                         *)
(* ===================================================================== *)

Lemma trimStart_length (s : string) : (String.length (trimStart s) <= String.length s)%nat.
Proof.
  induction s as [| c rest IH]; simpl; [lia |].
  destruct (is_space c); simpl; lia.
Qed.

Lemma trimEnd_length (s : string) : (String.length (trimEnd s) <= String.length s)%nat.
Proof.
  induction s as [| c rest IH]; simpl; [lia |].
  destruct (trimEnd rest); [destruct (is_space c) |]; simpl in *; lia.
Qed.

Lemma trim_length (s : string) : (String.length (trim s) <= String.length s)%nat.
Proof.
  unfold trim. pose proof (trimEnd_length (trimStart s)).
  pose proof (trimStart_length s). lia.
Qed.

Lemma trimEnd_idempotent (s : string) : trimEnd (trimEnd s) = trimEnd s.
Proof.
  induction s as [| c rest IH]; [reflexivity |]. cbn [trimEnd].
  destruct (trimEnd rest) as [| k kept] eqn:tail.
  - destruct (is_space c) eqn:space; [reflexivity |].
    cbn [trimEnd]. rewrite space. reflexivity.
  - change (trimEnd (String c (String k kept)))
      with (match trimEnd (String k kept) with
            | EmptyString => if is_space c then EmptyString else String c EmptyString
            | String a b => String c (String a b)
            end).
    rewrite IH. reflexivity.
Qed.

(** What [trimStart] returns does not start with white space. *)
Lemma trimStart_head (s : string) :
  match trimStart s with
  | EmptyString => True
  | String c _ => is_space c = false
  end.
Proof.
  induction s as [| c rest IH]; simpl; [exact I |].
  destruct (is_space c) eqn:space; [exact IH | exact space].
Qed.

Lemma trimEnd_keeps_head (c : ascii) (rest : string) :
  is_space c = false -> exists kept, trimEnd (String c rest) = String c kept.
Proof.
  intros solid. cbn [trimEnd]. destruct (trimEnd rest).
  - rewrite solid. eexists. reflexivity.
  - eexists. reflexivity.
Qed.

Lemma trim_idempotent (s : string) : trim (trim s) = trim s.
Proof.
  unfold trim. pose proof (trimStart_head s) as head.
  destruct (trimStart s) as [| c rest]; [reflexivity |].
  destruct (trimEnd_keeps_head c rest head) as (kept & shape).
  rewrite shape. cbn [trimStart]. rewrite head, <- shape.
  apply trimEnd_idempotent.
Qed.

Section FormToRecord.
Context {E : EmbeddingModel}.

(** Whatever the creation form dispatches passes the validation of
    [createIntention], and the record created from it carries the trimmed
    title of the form, of at most 200 characters, and its trimmed
    description, of at most 2000 characters. *)
Theorem form_then_create (f : FormFields) (data : IntentionData)
    (d : Database) (w : World) :
  handleSubmit f = Dispatched data ->
  exists r w',
    createIntention (Some d) data w = (Returns r, w')
    /\ title r = trim (form_title f)
    /\ title r <> ""
    /\ (String.length (title r) <= 200)%nat
    /\ description r = trim (form_description f)
    /\ (String.length (description r) <= 2000)%nat.
Proof.
  unfold handleSubmit.
  destruct (truthy (trim (form_title f))) eqn:titled; [| discriminate].
  cbn [negb].
  destruct (200 <? String.length (form_title f))%nat eqn:long_title;
    [discriminate |].
  destruct (2000 <? String.length (form_description f))%nat eqn:long_text;
    [discriminate |].
  intros dispatched. injection dispatched as <-.
  apply Nat.ltb_ge in long_title. apply Nat.ltb_ge in long_text.
  assert (present : title_missing
                      {| data_title := Some (trim (form_title f));
                         data_description := Some (trim (form_description f));
                         data_location := Some (trim (form_location f));
                         data_geo := None;
                         data_tags :=
                           Some (filter (fun t => (0 <? String.length t)%nat)
                                   (map trim (split_comma (form_tags f))));
                         data_category := Some (form_category f) |} = false).
  { unfold title_missing. cbn [data_title].
    rewrite trim_idempotent, titled. reflexivity. }
  pose proof (trim_length (form_title f)) as short_title.
  pose proof (trim_length (form_description f)) as short_text.
  assert (blank_text : truthy (trim (form_description f)) = false ->
                       trim (form_description f) = "")
    by apply truthy_false.
  unfold createIntention. rewrite present.
  unfold embedIntention, loadIntentionsFromCache, saveIntentionsToCache.
  run_async. rewrite !trim_idempotent.
  destruct (indexedDB_ok w); simpl;
    destruct (put d _) as [ms [] | ms e |]; simpl;
    try destruct (ms <? 15000)%Z; simpl;
    eexists; eexists; (split; [reflexivity |]); simpl;
    (split; [reflexivity |]);
    (split; [intros blank; rewrite blank in titled; discriminate |]);
    (split; [lia |]);
    destruct (truthy (trim (form_description f)));
    try rewrite (blank_text eq_refl); split; (reflexivity || lia || (simpl; lia)).
Qed.
End FormToRecord.

(** A run: a form with surrounding blanks. *)
Lemma form_then_create_witness :
  exists r w',
    @createIntention sample_model (Some (sample_database Never [] Never))
      {| data_title := Some "Help moving";
         data_description := Some "a van";
         data_location := Some "Oakland";
         data_geo := None;
         data_tags := Some ["moving"; "help"];
         data_category := Some "request" |} sample_world = (Returns r, w')
    /\ title r = "Help moving".
Proof.
  destruct (@form_then_create sample_model
              {| form_title := "  Help moving "; form_description := "a van ";
                 form_location := " Oakland"; form_category := "request";
                 form_tags := "moving, help, " |}
              {| data_title := Some "Help moving";
                 data_description := Some "a van";
                 data_location := Some "Oakland";
                 data_geo := None;
                 data_tags := Some ["moving"; "help"];
                 data_category := Some "request" |}
              (sample_database Never [] Never) sample_world eq_refl)
    as (r & w' & run & named & _).
  exists r, w'. split; [exact run | exact named].
Defined.

(** In the variant without cache the store opened is always the global
    one, created if need be, whatever the link and the remembered address
    say: exactly one open is started, the call returns the store when the
    open resolves within 15 s and throws otherwise, and the remembered
    address is left as it was. *)
Theorem direct_open_global (orbitdb : OrbitDB) (w : World) :
  let run := DirectAdapter.openIntentionsDatabase orbitdb w in
  trace (snd run) = (trace w ++ [EvOpen "syncengine-global-intentions" true])%list
  /\ stored_address (snd run) = stored_address w
  /\ match fst run with
     | Returns d =>
         exists ms,
           open orbitdb "syncengine-global-intentions" true = Resolves ms d
           /\ (ms < 15000)%Z
     | Throws _ =>
         resolves_before (open orbitdb "syncengine-global-intentions" true) 15000
         = false
     | Hangs => False
     end.
Proof.
  unfold DirectAdapter.openIntentionsDatabase, start_open. run_async.
  unfold race_timeout.
  change globalDatabaseName with "syncengine-global-intentions".
  destruct (open orbitdb "syncengine-global-intentions" true)
    as [ms d | ms e |]; simpl.
  - destruct (ms <? 15000)%Z eqn:fast; simpl; repeat split.
    exists ms. split; [reflexivity | apply Z.ltb_lt, fast].
  - destruct (ms <? 15000)%Z; simpl; repeat split.
  - repeat split.
Qed.

(** Clearing the cache never throws.  With IndexedDB available the cache
    is empty afterwards, otherwise it is left as it was; in both cases the
    next cache read returns no record, and the remembered address and the
    link are untouched. *)
Theorem clearIntentionsCache_empties (w : World) :
  let run := clearIntentionsCache w in
  fst run = Returns tt
  /\ cache_store (snd run) = (if indexedDB_ok w then [] else cache_store w)
  /\ stored_address (snd run) = stored_address w
  /\ url_db (snd run) = url_db w
  /\ fst ((clearIntentionsCache ;;; loadIntentionsFromCache)%async w) = Returns [].
Proof.
  unfold clearIntentionsCache, loadIntentionsFromCache. run_async.
  destruct (indexedDB_ok w) eqn:ok; simpl; rewrite ?ok; simpl;
    repeat split; reflexivity.
Qed.
